(** * IllumiGallery: the Gallery / Slideshow / Lightbox interaction core

    A shallow embedding of [scripts/utils.js] (classes [Utils] and
    [Gallery]), of the [Lightbox] class and of the settings part of
    [scripts/animations.js].

    Conventions of the embedding:
    - JS numbers that hold image dimensions, indices and cursors are [Z]
      (they are integers in every path of the program); the JS remainder
      [%] is [Z.rem] (sign of the dividend).
    - JS arrays are heap objects: the world holds a store of arrays and the
      components hold references into it, so that [push] (in place) and
      [filter] (fresh array) are told apart.
    - A method is a computation on the [World]; a method that can throw, or
      that awaits a promise that can reject, lives in the monad [M].
    - The DOM is a [Page]: the nodes the methods look up, with their class
      lists, and the callbacks that were scheduled. *)

From Stdlib Require Import Ascii.
From stdpp Require Import gmap strings list fin_maps pretty.

Local Open Scope Z_scope.

(** ** JavaScript string primitives used by [Utils] *)

Module JsString.

(** [s.lastIndexOf(c)]: the last position of [c], or [-1]. *)
Fixpoint lastIndexOf_from (c : ascii) (s : string) (pos : Z) (found : Z) : Z :=
  match s with
  | EmptyString => found
  | String a rest =>
      lastIndexOf_from c rest (pos + 1) (if Ascii.eqb a c then pos else found)
  end.

Definition lastIndexOf (c : ascii) (s : string) : Z :=
  lastIndexOf_from c s 0 (-1).

(** [s.slice(n)] for a non-negative [n]: the string without its first
    [n] characters (empty when [n] is past the end). *)
Fixpoint slice (n : Z) (s : string) : string :=
  if n <=? 0 then s
  else match s with
       | EmptyString => EmptyString
       | String _ rest => slice (n - 1) rest
       end.

(** [x >>> 0]: conversion to an unsigned 32-bit integer. *)
Definition to_uint32 (x : Z) : Z := x mod 2 ^ 32.

(** [s.toLowerCase()] on the ASCII letters. *)
Definition lower_ascii (a : ascii) : ascii :=
  let n := nat_of_ascii a in
  if (andb (Nat.leb 65 n) (Nat.leb n 90)) then ascii_of_nat (n + 32) else a.

Fixpoint toLowerCase (s : string) : string :=
  match s with
  | EmptyString => EmptyString
  | String a rest => String (lower_ascii a) (toLowerCase rest)
  end.

(** [s.startsWith(pat)] *)
Fixpoint startsWith (pat s : string) : bool :=
  match pat, s with
  | EmptyString, _ => true
  | String _ _, EmptyString => false
  | String a pat', String b s' => Ascii.eqb a b && startsWith pat' s'
  end.

Fixpoint length (s : string) : Z :=
  match s with
  | EmptyString => 0
  | String _ rest => 1 + length rest
  end.

(** [s.replace(pat, rep)] with a string pattern: the first occurrence only. *)
Fixpoint replace (pat rep : string) (s : string) : string :=
  if startsWith pat s
  then rep +:+ slice (length pat) s
  else match s with
       | EmptyString => EmptyString
       | String a rest => String a (replace pat rep rest)
       end.

End JsString.

(** ** Records *)

(** The object literal built by [Gallery.addWallpaper]. *)
Record Wallpaper := {
  id : string;
  name : string;
  originalName : string;
  size : Z;
  width : Z;
  height : Z;
  type : string;
  thumbnail : string;
  url : string;
  uploadedAt : string;
  tags : list string
}.

(** What the browser can tell about a decoded image. *)
Record Image := { img_width : Z; img_height : Z }.

(** A [File] picked in the file input.  [file_image] is the outcome of
    decoding its bytes: [None] when the browser fires [onerror]. *)
Record File := {
  file_name : string;
  file_size : Z;
  file_type : string;
  file_image : option Image
}.

(** ** [Utils]: the pure helpers *)

Module Utils.

Definition isLandscape (width height : Z) : bool := height <? width.

Definition isPortrait (width height : Z) : bool := width <=? height.

Definition getFileExtension (filename : string) : string :=
  JsString.toLowerCase
    (JsString.slice
       (JsString.to_uint32 (JsString.lastIndexOf "."%char filename - 1) + 2)
       filename).

Definition validExtensions : list string := ["jpg"; "jpeg"; "png"; "webp"].

Definition isImage (file : File) : bool :=
  bool_decide (getFileExtension (file_name file) ∈ validExtensions).

(** The key under which [saveToJSON] and [getFromJSON] keep a file. *)
Definition json_key (filename : string) : string :=
  "json_" +:+ JsString.replace ".json" "" filename.

End Utils.

(** ** The world the scripts run in *)

(** A reference to a JS array. *)
Definition ref := nat.

(** What [localStorage] holds under a key, read back through [JSON.parse]:
    the scripts save the master list under one key and the animation
    settings under another, and [JSON.parse (JSON.stringify v)] gives a
    fresh copy of [v] for such plain data.  The scripts never write an
    entry of one shape under the key of the other; a reader that finds one
    takes its default. *)
Inductive Stored :=
  | StoredWallpapers (l : list Wallpaper)
  | StoredSettings (m : gmap string string).

Record LocalStorage := {
  items : gmap string Stored;
  getItem_ok : bool;  (* [false]: [getItem] throws *)
  setItem_ok : bool   (* [false]: [setItem] throws (quota, private mode) *)
}.

(** A DOM element as far as the scripts look at it. *)
Record Element := {
  data_index : option Z;
  classList : list string
}.

Record Page := {
  screenInner : bool;                 (* [.screen-inner] exists *)
  slides : list Element;              (* the [.wallpaper-slide] elements *)
  verticalGallery : bool;             (* [#vertical-gallery] exists *)
  galleryItems : list Element;        (* the [.gallery-item] elements *)
  galleryNav : bool;                  (* both [.gallery-nav-*] buttons exist *)
  verticalNavBindings : nat;          (* times [initVerticalGalleryNav] bound its listeners *)
  slideCounter : option string;       (* text of [.slide-counter] *)
  playBtn : option bool;              (* [.play-btn]; [Some true]: pause icon *)
  loading : option (list string);     (* class list of [.loading] *)
  lightboxNode : option (list string);(* class list of [#lightbox] *)
  lightboxImageNode : bool;           (* [#lightbox-image] exists *)
  bodyOverflow : string;              (* [document.body.style.overflow] *)
  fileInputValue : string;
  cleanupTimeouts : list nat;         (* slides of the page awaiting the 800 ms clean-up *)
  imageLoads : list Wallpaper         (* preloads started by [Lightbox.loadImage] *)
}.

Record GalleryState := {
  wallpapers : ref;
  landscapeWallpapers : ref;
  portraitWallpapers : ref;
  currentSlideIndex : Z;
  isPlaying : bool;
  slideInterval : option positive;
  slideDuration : Z;
  animationSettings : gmap string string;
  isFullscreen : bool
}.

Record LightboxState := {
  currentIndex : Z;
  currentWallpapers : ref;
  isOpen : bool
}.

(** What an observer of the page sees happen. *)
Inductive Effect :=
  | SetItem (key : string)       (* [localStorage.setItem] was called *)
  | Render                       (* [renderGallery] ran *)
  | ConsoleError (msg : string)
  | ConsoleWarn (msg : string).

Record World := {
  heap : gmap ref (list Wallpaper);   (* the arrays *)
  next_ref : ref;
  storage : LocalStorage;
  page : Page;
  timers : gset positive;             (* live [setInterval] handles *)
  next_timer : positive;
  clock : nat;                        (* source of ids, urls and timestamps *)
  trace : list Effect;
  gallery : GalleryState;
  lightbox : LightboxState
}.

#[global] Instance Element_eq_dec : EqDecision Element.
Proof. solve_decision. Defined.
#[global] Instance Wallpaper_eq_dec : EqDecision Wallpaper.
Proof. solve_decision. Defined.
#[global] Instance Effect_eq_dec : EqDecision Effect.
Proof. solve_decision. Defined.

(** *** Field updates *)

Definition set_heap (f : gmap ref (list Wallpaper) → gmap ref (list Wallpaper)) (w : World) : World :=
  {| heap := f (heap w); next_ref := next_ref w; storage := storage w; page := page w;
     timers := timers w; next_timer := next_timer w; clock := clock w; trace := trace w;
     gallery := gallery w; lightbox := lightbox w |}.

Definition set_next_ref (f : ref → ref) (w : World) : World :=
  {| heap := heap w; next_ref := f (next_ref w); storage := storage w; page := page w;
     timers := timers w; next_timer := next_timer w; clock := clock w; trace := trace w;
     gallery := gallery w; lightbox := lightbox w |}.

Definition set_storage (f : LocalStorage → LocalStorage) (w : World) : World :=
  {| heap := heap w; next_ref := next_ref w; storage := f (storage w); page := page w;
     timers := timers w; next_timer := next_timer w; clock := clock w; trace := trace w;
     gallery := gallery w; lightbox := lightbox w |}.

Definition set_page (f : Page → Page) (w : World) : World :=
  {| heap := heap w; next_ref := next_ref w; storage := storage w; page := f (page w);
     timers := timers w; next_timer := next_timer w; clock := clock w; trace := trace w;
     gallery := gallery w; lightbox := lightbox w |}.

Definition set_timers (f : gset positive → gset positive) (w : World) : World :=
  {| heap := heap w; next_ref := next_ref w; storage := storage w; page := page w;
     timers := f (timers w); next_timer := next_timer w; clock := clock w; trace := trace w;
     gallery := gallery w; lightbox := lightbox w |}.

Definition set_next_timer (f : positive → positive) (w : World) : World :=
  {| heap := heap w; next_ref := next_ref w; storage := storage w; page := page w;
     timers := timers w; next_timer := f (next_timer w); clock := clock w; trace := trace w;
     gallery := gallery w; lightbox := lightbox w |}.

Definition set_clock (f : nat → nat) (w : World) : World :=
  {| heap := heap w; next_ref := next_ref w; storage := storage w; page := page w;
     timers := timers w; next_timer := next_timer w; clock := f (clock w); trace := trace w;
     gallery := gallery w; lightbox := lightbox w |}.

Definition emit_effect (e : Effect) (w : World) : World :=
  {| heap := heap w; next_ref := next_ref w; storage := storage w; page := page w;
     timers := timers w; next_timer := next_timer w; clock := clock w; trace := trace w ++ [e];
     gallery := gallery w; lightbox := lightbox w |}.

Definition set_gallery (f : GalleryState → GalleryState) (w : World) : World :=
  {| heap := heap w; next_ref := next_ref w; storage := storage w; page := page w;
     timers := timers w; next_timer := next_timer w; clock := clock w; trace := trace w;
     gallery := f (gallery w); lightbox := lightbox w |}.

Definition set_lightbox (f : LightboxState → LightboxState) (w : World) : World :=
  {| heap := heap w; next_ref := next_ref w; storage := storage w; page := page w;
     timers := timers w; next_timer := next_timer w; clock := clock w; trace := trace w;
     gallery := gallery w; lightbox := f (lightbox w) |}.

Definition with_wallpapers (r : ref) (g : GalleryState) : GalleryState :=
  {| wallpapers := r; landscapeWallpapers := landscapeWallpapers g;
     portraitWallpapers := portraitWallpapers g; currentSlideIndex := currentSlideIndex g;
     isPlaying := isPlaying g; slideInterval := slideInterval g;
     slideDuration := slideDuration g; animationSettings := animationSettings g;
     isFullscreen := isFullscreen g |}.

Definition with_sublists (l p : ref) (g : GalleryState) : GalleryState :=
  {| wallpapers := wallpapers g; landscapeWallpapers := l;
     portraitWallpapers := p; currentSlideIndex := currentSlideIndex g;
     isPlaying := isPlaying g; slideInterval := slideInterval g;
     slideDuration := slideDuration g; animationSettings := animationSettings g;
     isFullscreen := isFullscreen g |}.

Definition with_currentSlideIndex (c : Z) (g : GalleryState) : GalleryState :=
  {| wallpapers := wallpapers g; landscapeWallpapers := landscapeWallpapers g;
     portraitWallpapers := portraitWallpapers g; currentSlideIndex := c;
     isPlaying := isPlaying g; slideInterval := slideInterval g;
     slideDuration := slideDuration g; animationSettings := animationSettings g;
     isFullscreen := isFullscreen g |}.

Definition with_isPlaying (b : bool) (g : GalleryState) : GalleryState :=
  {| wallpapers := wallpapers g; landscapeWallpapers := landscapeWallpapers g;
     portraitWallpapers := portraitWallpapers g; currentSlideIndex := currentSlideIndex g;
     isPlaying := b; slideInterval := slideInterval g;
     slideDuration := slideDuration g; animationSettings := animationSettings g;
     isFullscreen := isFullscreen g |}.

Definition with_slideInterval (h : option positive) (g : GalleryState) : GalleryState :=
  {| wallpapers := wallpapers g; landscapeWallpapers := landscapeWallpapers g;
     portraitWallpapers := portraitWallpapers g; currentSlideIndex := currentSlideIndex g;
     isPlaying := isPlaying g; slideInterval := h;
     slideDuration := slideDuration g; animationSettings := animationSettings g;
     isFullscreen := isFullscreen g |}.

Definition with_animationSettings (m : gmap string string) (g : GalleryState) : GalleryState :=
  {| wallpapers := wallpapers g; landscapeWallpapers := landscapeWallpapers g;
     portraitWallpapers := portraitWallpapers g; currentSlideIndex := currentSlideIndex g;
     isPlaying := isPlaying g; slideInterval := slideInterval g;
     slideDuration := slideDuration g; animationSettings := m;
     isFullscreen := isFullscreen g |}.

Definition with_slides (l : list Element) (p : Page) : Page :=
  {| screenInner := screenInner p; slides := l; verticalGallery := verticalGallery p;
     galleryItems := galleryItems p; galleryNav := galleryNav p;
     verticalNavBindings := verticalNavBindings p; slideCounter := slideCounter p;
     playBtn := playBtn p; loading := loading p; lightboxNode := lightboxNode p;
     lightboxImageNode := lightboxImageNode p; bodyOverflow := bodyOverflow p;
     fileInputValue := fileInputValue p; cleanupTimeouts := cleanupTimeouts p;
     imageLoads := imageLoads p |}.

Definition with_galleryItems (l : list Element) (p : Page) : Page :=
  {| screenInner := screenInner p; slides := slides p; verticalGallery := verticalGallery p;
     galleryItems := l; galleryNav := galleryNav p;
     verticalNavBindings := verticalNavBindings p; slideCounter := slideCounter p;
     playBtn := playBtn p; loading := loading p; lightboxNode := lightboxNode p;
     lightboxImageNode := lightboxImageNode p; bodyOverflow := bodyOverflow p;
     fileInputValue := fileInputValue p; cleanupTimeouts := cleanupTimeouts p;
     imageLoads := imageLoads p |}.

Definition with_verticalNavBindings (n : nat) (p : Page) : Page :=
  {| screenInner := screenInner p; slides := slides p; verticalGallery := verticalGallery p;
     galleryItems := galleryItems p; galleryNav := galleryNav p;
     verticalNavBindings := n; slideCounter := slideCounter p;
     playBtn := playBtn p; loading := loading p; lightboxNode := lightboxNode p;
     lightboxImageNode := lightboxImageNode p; bodyOverflow := bodyOverflow p;
     fileInputValue := fileInputValue p; cleanupTimeouts := cleanupTimeouts p;
     imageLoads := imageLoads p |}.

Definition with_slideCounter (t : option string) (p : Page) : Page :=
  {| screenInner := screenInner p; slides := slides p; verticalGallery := verticalGallery p;
     galleryItems := galleryItems p; galleryNav := galleryNav p;
     verticalNavBindings := verticalNavBindings p; slideCounter := t;
     playBtn := playBtn p; loading := loading p; lightboxNode := lightboxNode p;
     lightboxImageNode := lightboxImageNode p; bodyOverflow := bodyOverflow p;
     fileInputValue := fileInputValue p; cleanupTimeouts := cleanupTimeouts p;
     imageLoads := imageLoads p |}.

Definition with_playBtn (b : option bool) (p : Page) : Page :=
  {| screenInner := screenInner p; slides := slides p; verticalGallery := verticalGallery p;
     galleryItems := galleryItems p; galleryNav := galleryNav p;
     verticalNavBindings := verticalNavBindings p; slideCounter := slideCounter p;
     playBtn := b; loading := loading p; lightboxNode := lightboxNode p;
     lightboxImageNode := lightboxImageNode p; bodyOverflow := bodyOverflow p;
     fileInputValue := fileInputValue p; cleanupTimeouts := cleanupTimeouts p;
     imageLoads := imageLoads p |}.

Definition with_loading (l : option (list string)) (p : Page) : Page :=
  {| screenInner := screenInner p; slides := slides p; verticalGallery := verticalGallery p;
     galleryItems := galleryItems p; galleryNav := galleryNav p;
     verticalNavBindings := verticalNavBindings p; slideCounter := slideCounter p;
     playBtn := playBtn p; loading := l; lightboxNode := lightboxNode p;
     lightboxImageNode := lightboxImageNode p; bodyOverflow := bodyOverflow p;
     fileInputValue := fileInputValue p; cleanupTimeouts := cleanupTimeouts p;
     imageLoads := imageLoads p |}.

Definition with_lightboxNode (l : option (list string)) (p : Page) : Page :=
  {| screenInner := screenInner p; slides := slides p; verticalGallery := verticalGallery p;
     galleryItems := galleryItems p; galleryNav := galleryNav p;
     verticalNavBindings := verticalNavBindings p; slideCounter := slideCounter p;
     playBtn := playBtn p; loading := loading p; lightboxNode := l;
     lightboxImageNode := lightboxImageNode p; bodyOverflow := bodyOverflow p;
     fileInputValue := fileInputValue p; cleanupTimeouts := cleanupTimeouts p;
     imageLoads := imageLoads p |}.

Definition with_bodyOverflow (o : string) (p : Page) : Page :=
  {| screenInner := screenInner p; slides := slides p; verticalGallery := verticalGallery p;
     galleryItems := galleryItems p; galleryNav := galleryNav p;
     verticalNavBindings := verticalNavBindings p; slideCounter := slideCounter p;
     playBtn := playBtn p; loading := loading p; lightboxNode := lightboxNode p;
     lightboxImageNode := lightboxImageNode p; bodyOverflow := o;
     fileInputValue := fileInputValue p; cleanupTimeouts := cleanupTimeouts p;
     imageLoads := imageLoads p |}.

Definition with_fileInputValue (v : string) (p : Page) : Page :=
  {| screenInner := screenInner p; slides := slides p; verticalGallery := verticalGallery p;
     galleryItems := galleryItems p; galleryNav := galleryNav p;
     verticalNavBindings := verticalNavBindings p; slideCounter := slideCounter p;
     playBtn := playBtn p; loading := loading p; lightboxNode := lightboxNode p;
     lightboxImageNode := lightboxImageNode p; bodyOverflow := bodyOverflow p;
     fileInputValue := v; cleanupTimeouts := cleanupTimeouts p;
     imageLoads := imageLoads p |}.

Definition with_cleanupTimeouts (l : list nat) (p : Page) : Page :=
  {| screenInner := screenInner p; slides := slides p; verticalGallery := verticalGallery p;
     galleryItems := galleryItems p; galleryNav := galleryNav p;
     verticalNavBindings := verticalNavBindings p; slideCounter := slideCounter p;
     playBtn := playBtn p; loading := loading p; lightboxNode := lightboxNode p;
     lightboxImageNode := lightboxImageNode p; bodyOverflow := bodyOverflow p;
     fileInputValue := fileInputValue p; cleanupTimeouts := l;
     imageLoads := imageLoads p |}.

Definition with_imageLoads (l : list Wallpaper) (p : Page) : Page :=
  {| screenInner := screenInner p; slides := slides p; verticalGallery := verticalGallery p;
     galleryItems := galleryItems p; galleryNav := galleryNav p;
     verticalNavBindings := verticalNavBindings p; slideCounter := slideCounter p;
     playBtn := playBtn p; loading := loading p; lightboxNode := lightboxNode p;
     lightboxImageNode := lightboxImageNode p; bodyOverflow := bodyOverflow p;
     fileInputValue := fileInputValue p; cleanupTimeouts := cleanupTimeouts p;
     imageLoads := l |}.

(** *** Arrays on the heap *)

Definition deref (w : World) (r : ref) : list Wallpaper :=
  default [] (heap w !! r).

(** [arr.length] *)
Definition array_length (w : World) (r : ref) : Z :=
  Z.of_nat (length (deref w r)).

(** An array literal, or the result of [filter] or [JSON.parse]: a new object. *)
Definition alloc (l : list Wallpaper) (w : World) : ref * World :=
  (next_ref w, set_next_ref S (set_heap <[next_ref w := l]> w)).

(** [arr.push(x)]: the array object itself grows. *)
Definition push (r : ref) (x : Wallpaper) (w : World) : World :=
  set_heap <[r := deref w r ++ [x]]> w.

(** [arr[i]] *)
Definition array_get (w : World) (r : ref) (i : Z) : option Wallpaper :=
  if i <? 0 then None else deref w r !! Z.to_nat i.

(** *** [DOMTokenList] *)

Module ClassList.

Definition contains (c : string) (l : list string) : bool :=
  bool_decide (c ∈ l).

Definition add (c : string) (l : list string) : list string :=
  if contains c l then l else l ++ [c].

Definition remove (cs : list string) (l : list string) : list string :=
  List.filter (λ c, negb (contains c cs)) l.

End ClassList.

Definition add_class (c : string) (e : Element) : Element :=
  {| data_index := data_index e; classList := ClassList.add c (classList e) |}.

Definition remove_classes (cs : list string) (e : Element) : Element :=
  {| data_index := data_index e; classList := ClassList.remove cs (classList e) |}.

Definition animationClasses : list string :=
  ["animation-fade"; "animation-slide"; "animation-zoom"; "animation-rotate";
   "animation-flip"; "animation-cube"; "animation-bounce"; "animation-wave"].

(** [this.animationSettings.landscape] inside a template string. *)
Definition setting (m : gmap string string) (category : string) : string :=
  default "undefined" (m !! category).

(** *** Computations that may throw *)

Inductive Outcome (A : Type) :=
  | Return (a : A)
  | Throw (e : string).
Arguments Return {A} a.
Arguments Throw {A} e.

Definition M (A : Type) : Type := World → Outcome A * World.

Definition ret {A} (a : A) : M A := λ w, (Return a, w).

Definition throw {A} (e : string) : M A := λ w, (Throw e, w).

Definition bind {A B} (m : M A) (k : A → M B) : M B :=
  λ w, match m w with
       | (Return a, w') => k a w'
       | (Throw e, w') => (Throw e, w')
       end.

(** A method that cannot throw, run for its effect. *)
Definition lift (f : World → World) : M unit := λ w, (Return tt, f w).

(** [try { body } catch (error) { handler(error) }] *)
Definition try_catch {A} (body : M A) (handler : string → M A) : M A :=
  λ w, match body w with
       | (Return a, w') => (Return a, w')
       | (Throw e, w') => handler e w'
       end.

(** [try { body } finally { cleanup }] *)
Definition try_finally {A} (body : M A) (cleanup : World → World) : M A :=
  λ w, let '(o, w') := body w in (o, cleanup w').

Notation "'let!' x ':=' m 'in' k" := (bind m (λ x, k))
  (at level 10, x name, m at level 200, k at level 200).
Notation "m >>> k" := (bind m (λ _, k))
  (at level 100, k at level 200, right associativity).

(** [for (const x of xs) { body(x) }]: a throw leaves the loop. *)
Fixpoint for_of {A} (xs : list A) (body : A → M unit) : M unit :=
  match xs with
  | [] => ret tt
  | x :: rest => body x >>> for_of rest body
  end.

(** The world a computation leaves behind, however it ended. *)
Definition exec {A} (m : M A) (w : World) : World := snd (m w).

(** ** [Utils]: the helpers that touch the browser *)

Module UtilsIO.

Definition showLoading (w : World) : World :=
  set_page (λ p, with_loading (ClassList.add "active" <$> loading p) p) w.

Definition hideLoading (w : World) : World :=
  set_page (λ p, with_loading (ClassList.remove ["active"] <$> loading p) p) w.

Definition getImageDimensions (file : File) : M Image :=
  match file_image file with
  | Some img => ret img
  | None => throw "无法读取图片尺寸"
  end.

(** The pixels of the thumbnail are not modelled, only whether the image
    could be decoded. *)
Definition generateThumbnail (file : File) : M string :=
  match file_image file with
  | Some img => ret "data:image/jpeg;base64,"
  | None => throw "无法生成缩略图"
  end.

Definition saveToStorage (key : string) (data : Stored) (w : World) : World :=
  let w := emit_effect (SetItem key) w in
  if setItem_ok (storage w)
  then set_storage (λ st, {| items := <[key := data]> (items st);
                             getItem_ok := getItem_ok st;
                             setItem_ok := setItem_ok st |}) w
  else emit_effect (ConsoleError "保存数据失败:") w.

(** [None] stands for the caller's default value. *)
Definition getFromStorage (key : string) (w : World) : option Stored * World :=
  if getItem_ok (storage w)
  then (items (storage w) !! key, w)
  else (None, emit_effect (ConsoleError "获取数据失败:") w).

Definition saveToJSON (filename : string) (data : Stored) (w : World) : World :=
  saveToStorage (Utils.json_key filename) data w.

Definition getFromJSON (filename : string) (w : World) : option Stored * World :=
  getFromStorage (Utils.json_key filename) w.

(** [Date.now()] and [Math.random()] are a counter of the world. *)
Definition generateId (w : World) : string * World :=
  ("id" +:+ pretty (clock w), set_clock S w).

Definition createObjectURL (file : File) (w : World) : string * World :=
  ("blob:" +:+ pretty (clock w), set_clock S w).

Definition toISOString (w : World) : string := pretty (clock w).

End UtilsIO.

(** ** [Lightbox] *)

(** The [detail] of an [openLightbox] event. *)
Record OpenDetail := {
  detail_index : option Z;
  detail_type : string;
  detail_wallpapers : option ref
}.

Module Lightbox.

(** [new Lightbox()]: the cursor, an empty list of its own, closed. *)
Definition constructor (w : World) : World :=
  let '(r, w) := alloc [] w in
  set_lightbox (λ _, {| currentIndex := 0; currentWallpapers := r; isOpen := false |}) w.

Definition loadImage (w : World) : World :=
  let lb := lightbox w in
  if negb (lightboxImageNode (page w)) || (array_length w (currentWallpapers lb) =? 0)
  then w
  else match array_get w (currentWallpapers lb) (currentIndex lb) with
       | None => w
       | Some wallpaper =>
           set_page (λ p, with_imageLoads (imageLoads p ++ [wallpaper]) p)
             (UtilsIO.showLoading w)
       end.

Definition open (data : OpenDetail) (w : World) : World :=
  match detail_wallpapers data with
  | None => w
  | Some arr =>
      if array_length w arr =? 0 then w
      else if negb (bool_decide (is_Some (lightboxNode (page w))))
              || negb (lightboxImageNode (page w)) then w
      else
        let w := set_lightbox (λ lb, {| currentIndex := default 0 (detail_index data);
                                        currentWallpapers := arr;
                                        isOpen := isOpen lb |}) w in
        let w := set_page (λ p, with_lightboxNode (ClassList.add "active" <$> lightboxNode p) p) w in
        let w := set_lightbox (λ lb, {| currentIndex := currentIndex lb;
                                        currentWallpapers := currentWallpapers lb;
                                        isOpen := true |}) w in
        let w := loadImage w in
        set_page (with_bodyOverflow "hidden") w
  end.

Definition close (w : World) : World :=
  if negb (isOpen (lightbox w)) then w
  else
    let w := set_page (λ p, with_lightboxNode (ClassList.remove ["active"] <$> lightboxNode p) p) w in
    let w := set_lightbox (λ lb, {| currentIndex := currentIndex lb;
                                    currentWallpapers := currentWallpapers lb;
                                    isOpen := false |}) w in
    set_page (with_bodyOverflow "") w.

Definition with_currentIndex (i : Z) (lb : LightboxState) : LightboxState :=
  {| currentIndex := i; currentWallpapers := currentWallpapers lb; isOpen := isOpen lb |}.

Definition prev (w : World) : World :=
  let lb := lightbox w in
  let len := array_length w (currentWallpapers lb) in
  if len <=? 1 then w
  else loadImage (set_lightbox (with_currentIndex (Z.rem (currentIndex lb - 1 + len) len)) w).

Definition next (w : World) : World :=
  let lb := lightbox w in
  let len := array_length w (currentWallpapers lb) in
  if len <=? 1 then w
  else loadImage (set_lightbox (with_currentIndex (Z.rem (currentIndex lb + 1) len)) w).

Definition handleKeyboard (key : string) (w : World) : World :=
  if negb (isOpen (lightbox w)) then w
  else if bool_decide (key = "Escape") then close w
  else if bool_decide (key = "ArrowLeft") then prev w
  else if bool_decide (key = "ArrowRight") then next w
  else w.

(** The list the overlay is browsing. *)
Definition getCurrentWallpapers (w : World) : list Wallpaper :=
  deref w (currentWallpapers (lightbox w)).

End Lightbox.

(** ** [Gallery] *)

Module Gallery.

Definition wallpaper_isLandscape (wp : Wallpaper) : bool :=
  Utils.isLandscape (width wp) (height wp).

Definition wallpaper_isPortrait (wp : Wallpaper) : bool :=
  Utils.isPortrait (width wp) (height wp).

(** Both sub-lists are new arrays, the master list is only read. *)
Definition classifyWallpapers (w : World) : World :=
  let all := deref w (wallpapers (gallery w)) in
  let '(l, w) := alloc (List.filter wallpaper_isLandscape all) w in
  let '(p, w) := alloc (List.filter wallpaper_isPortrait all) w in
  set_gallery (with_sublists l p) w.

Definition loadWallpapers (w : World) : World :=
  let '(saved, w) := UtilsIO.getFromJSON "wallpapers.json" w in
  let savedWallpapers :=
    match saved with
    | Some (StoredWallpapers l) => l
    | _ => []
    end in
  let '(r, w) := alloc savedWallpapers w in
  classifyWallpapers (set_gallery (with_wallpapers r) w).

Definition saveWallpapers (w : World) : World :=
  UtilsIO.saveToJSON "wallpapers.json"
    (StoredWallpapers (deref w (wallpapers (gallery w)))) w.

(** [{ ...this.animationSettings, ...savedSettings }]: the saved keys win. *)
Definition loadAnimationSettings (w : World) : World :=
  let '(saved, w) := UtilsIO.getFromJSON "animation_settings.json" w in
  match saved with
  | Some (StoredSettings m) =>
      set_gallery (λ g, with_animationSettings (m ∪ animationSettings g) g) w
  | _ => w
  end.

Definition updateSlideCounter (w : World) : World :=
  let text := pretty (currentSlideIndex (gallery w) + 1) +:+ " / "
              +:+ pretty (array_length w (landscapeWallpapers (gallery w))) in
  set_page (λ p, with_slideCounter ((λ _, text) <$> slideCounter p) p) w.

(** The elements one [forEach] of a render creates. *)
Definition rendered (base : string) (l : list Wallpaper) : list Element :=
  imap (λ index _, {| data_index := Some (Z.of_nat index);
                      classList := if bool_decide (index = 0%nat)
                                   then [base; "active"] else [base] |}) l.

(** [innerHTML = ''] takes the old slides off the page, and with them the
    clean-ups that were waiting for them. *)
Definition clearSlides (p : Page) : Page :=
  with_cleanupTimeouts [] (with_slides [] p).

Definition renderLandscapeSlider (w : World) : World :=
  if negb (screenInner (page w)) then w
  else
    let w := set_page clearSlides w in
    let landscape := deref w (landscapeWallpapers (gallery w)) in
    if array_length w (landscapeWallpapers (gallery w)) =? 0
    then set_page (with_slides [ {| data_index := None;
                                    classList := ["wallpaper-slide"; "active"] |} ]) w
    else set_gallery (with_currentSlideIndex 0)
           (set_page (with_slides (rendered "wallpaper-slide" landscape)) w).

Definition initVerticalGalleryNav (w : World) : World :=
  if negb (verticalGallery (page w)) || negb (galleryNav (page w)) then w
  else set_page (λ p, with_verticalNavBindings (S (verticalNavBindings p)) p) w.

Definition renderVerticalGallery (w : World) : World :=
  if negb (verticalGallery (page w)) then w
  else
    let portrait := deref w (portraitWallpapers (gallery w)) in
    if array_length w (portraitWallpapers (gallery w)) =? 0
    then set_page (with_galleryItems [ {| data_index := None;
                                          classList := ["gallery-item"; "active"] |} ]) w
    else initVerticalGalleryNav
           (set_page (with_galleryItems (rendered "gallery-item" portrait)) w).

Definition renderGallery (w : World) : World :=
  updateSlideCounter (renderVerticalGallery (renderLandscapeSlider (emit_effect Render w))).

(** The last item that carries [active], or [0]. *)
Definition activeItem (items : list Element) : Z :=
  foldl (λ cur '(index, item),
           if ClassList.contains "active" (classList item) then Z.of_nat index else cur)
        0 (imap (λ index item, (index, item)) items).

Definition updateVerticalGalleryItems (activeIndex : Z) (w : World) : World :=
  let items := galleryItems (page w) in
  let len := Z.of_nat (length items) in
  if len =? 0 then w
  else
    let animationType := setting (animationSettings (gallery w)) "portrait" in
    let update (index : nat) (item : Element) : Element :=
      let item := remove_classes ("active" :: "prev" :: "next" :: animationClasses) item in
      let item := add_class ("animation-" +:+ animationType) item in
      if Z.of_nat index =? activeIndex then add_class "active" item
      else if Z.of_nat index =? Z.rem (activeIndex - 1 + len) len then add_class "prev" item
      else if Z.of_nat index =? Z.rem (activeIndex + 1) len then add_class "next" item
      else item in
    set_page (with_galleryItems (imap update items)) w.

Definition navigateVerticalGallery (direction : Z) (w : World) : World :=
  if array_length w (portraitWallpapers (gallery w)) =? 0 then w
  else
    let items := galleryItems (page w) in
    let len := Z.of_nat (length items) in
    if len =? 0 then w
    else
      let currentIndex := activeItem items in
      let newIndex := currentIndex + direction in
      let newIndex := if newIndex <? 0 then len - 1
                      else if len <=? newIndex then 0
                      else newIndex in
      updateVerticalGalleryItems newIndex w.

(** [Utils.$('.wallpaper-slide[data-index="c"]')]: the first such slide. *)
Definition querySlide (c : Z) (w : World) : option nat :=
  fst <$> list_find (λ e, data_index e = Some c) (slides (page w)).

Definition on_slide (pos : nat) (f : Element → Element) (w : World) : World :=
  set_page (λ p, with_slides (alter f pos (slides p)) p) w.

(** [currentSlide] and [nextSlide] are handles on elements of the page: the
    same element when the two queries found the same slide. *)
Definition transitionSlides (currentSlide nextSlide : option nat) (direction : string)
    (w : World) : World :=
  match currentSlide, nextSlide with
  | Some cur, Some nxt =>
      let animationType := setting (animationSettings (gallery w)) "landscape" in
      let w := on_slide cur (remove_classes animationClasses) w in
      let w := on_slide nxt (remove_classes animationClasses) w in
      let w := on_slide cur (add_class ("animation-" +:+ animationType)) w in
      let w := on_slide nxt (add_class ("animation-" +:+ animationType)) w in
      let w := on_slide nxt (add_class direction) w in
      let w := on_slide nxt (add_class "active") w in
      let w := on_slide cur (remove_classes ["active"]) w in
      let w := on_slide cur (add_class (if bool_decide (direction = "prev")
                                        then "next" else "prev")) w in
      let w := on_slide nxt (remove_classes [direction]) w in
      set_page (λ p, with_cleanupTimeouts (cleanupTimeouts p ++ [cur]) p) w
  | _, _ => w
  end.

(** The callback of the 800 ms timeout. *)
Definition cleanup (cur : nat) (w : World) : World :=
  on_slide cur (remove_classes ["prev"; "next"]) w.

(** The oldest pending timeout fires. *)
Definition timeoutFires (w : World) : World :=
  match cleanupTimeouts (page w) with
  | [] => w
  | cur :: rest => cleanup cur (set_page (with_cleanupTimeouts rest) w)
  end.

Definition prevSlide (w : World) : World :=
  let len := array_length w (landscapeWallpapers (gallery w)) in
  if len =? 0 then w
  else
    let currentSlide := querySlide (currentSlideIndex (gallery w)) w in
    let w := set_gallery (λ g, with_currentSlideIndex
                                 (Z.rem (currentSlideIndex g - 1 + len) len) g) w in
    let nextSlide := querySlide (currentSlideIndex (gallery w)) w in
    updateSlideCounter (transitionSlides currentSlide nextSlide "prev" w).

Definition nextSlide (w : World) : World :=
  let len := array_length w (landscapeWallpapers (gallery w)) in
  if len =? 0 then w
  else
    let currentSlide := querySlide (currentSlideIndex (gallery w)) w in
    let w := set_gallery (λ g, with_currentSlideIndex
                                 (Z.rem (currentSlideIndex g + 1) len) g) w in
    let nextSlide := querySlide (currentSlideIndex (gallery w)) w in
    updateSlideCounter (transitionSlides currentSlide nextSlide "next" w).

Definition startSlideShow (w : World) : World :=
  match slideInterval (gallery w) with
  | Some _ => w
  | None =>
      let h := next_timer w in
      let w := set_next_timer Pos.succ (set_timers (λ t, {[h]} ∪ t) w) in
      set_gallery (with_slideInterval (Some h)) w
  end.

Definition stopSlideShow (w : World) : World :=
  match slideInterval (gallery w) with
  | Some h =>
      let w := set_timers (λ t, t ∖ {[h]}) w in
      set_gallery (with_slideInterval None) w
  | None => w
  end.

(** The callback of [setInterval], when the timer [h] is live. *)
Definition intervalFires (h : positive) (w : World) : World :=
  if bool_decide (h ∈ timers w) then nextSlide w else w.

Definition togglePlay (w : World) : World :=
  let w := set_gallery (λ g, with_isPlaying (negb (isPlaying g)) g) w in
  match playBtn (page w) with
  | Some _ =>
      if isPlaying (gallery w)
      then startSlideShow (set_page (with_playBtn (Some true)) w)
      else stopSlideShow (set_page (with_playBtn (Some false)) w)
  | None => w
  end.

Definition handleKeyboardNavigation (key : string) (w : World) : World :=
  if bool_decide (key = "ArrowLeft") then prevSlide w
  else if bool_decide (key = "ArrowRight") then nextSlide w
  else if bool_decide (key = " ") then togglePlay w
  else w.

(** [Utils.emit(document, 'openLightbox', detail)] runs the one listener of
    that event, [Lightbox.open], before it returns. *)
Definition openLightbox (index : Z) (type : string) (w : World) : World :=
  let wallpapers := if bool_decide (type = "landscape")
                    then landscapeWallpapers (gallery w)
                    else portraitWallpapers (gallery w) in
  if array_length w wallpapers =? 0
  then emit_effect (ConsoleWarn "没有可预览的壁纸") w
  else
    let validIndex := Z.max 0 (Z.min index (array_length w wallpapers - 1)) in
    Lightbox.open {| detail_index := Some validIndex;
                     detail_type := type;
                     detail_wallpapers := Some wallpapers |} w.

Definition addWallpaper (file : File) : M Wallpaper :=
  try_catch
    (let! dimensions := UtilsIO.getImageDimensions file in
     let! thumbnail := UtilsIO.generateThumbnail file in
     λ w,
       let '(new_id, w) := UtilsIO.generateId w in
       let '(new_url, w) := UtilsIO.createObjectURL file w in
       let wallpaper :=
         {| id := new_id;
            name := file_name file;
            originalName := file_name file;
            size := file_size file;
            width := img_width dimensions;
            height := img_height dimensions;
            type := file_type file;
            thumbnail := thumbnail;
            url := new_url;
            uploadedAt := UtilsIO.toISOString w;
            tags := [] |} in
       let w := push (wallpapers (gallery w)) wallpaper w in
       let w := classifyWallpapers w in
       (Return wallpaper, w))
    (λ error,
       lift (emit_effect (ConsoleError "添加壁纸失败:")) >>> throw error).

(** [files] is [Array.from(e.target.files)].  The files are awaited one
    after the other; no other handler is run in between here. *)
Definition handleFileImport (files : list File) : M unit :=
  if bool_decide (files = []) then ret tt
  else
    lift UtilsIO.showLoading >>>
    try_finally
      (try_catch
         (for_of files (λ file,
            if Utils.isImage file
            then addWallpaper file >>> ret tt
            else ret tt) >>>
          lift saveWallpapers >>>
          lift renderGallery >>>
          lift (set_page (with_fileInputValue "")))
         (λ error, lift (emit_effect (ConsoleError "导入壁纸失败:"))))
      UtilsIO.hideLoading.

(** [new Gallery()]: the field initialisers, then [init]. *)
Definition constructor (w : World) : World :=
  let '(all, w) := alloc [] w in
  let '(l, w) := alloc [] w in
  let '(p, w) := alloc [] w in
  let w := set_gallery (λ _, {| wallpapers := all;
                                landscapeWallpapers := l;
                                portraitWallpapers := p;
                                currentSlideIndex := 0;
                                isPlaying := false;
                                slideInterval := None;
                                slideDuration := 5000;
                                animationSettings :=
                                  {[ "landscape" := "slide"; "portrait" := "slide" ]};
                                isFullscreen := false |}) w in
  renderGallery (loadAnimationSettings (loadWallpapers w)).

Definition getTotalWallpapers (w : World) : Z := array_length w (wallpapers (gallery w)).
Definition getLandscapeCount (w : World) : Z := array_length w (landscapeWallpapers (gallery w)).

End Gallery.

(** ** [AnimationManager]: the settings *)

Module AnimationManager.

(** The keys of [this.animations] with their [className]. *)
Definition animations : list (string * string) :=
  [("fade", "animation-fade"); ("slide", "animation-slide"); ("zoom", "animation-zoom");
   ("rotate", "animation-rotate"); ("flip", "animation-flip"); ("cube", "animation-cube");
   ("bounce", "animation-bounce"); ("wave", "animation-wave")].

(** The initial [this.currentSettings]. *)
Definition defaultSettings : gmap string string :=
  {[ "landscape" := "slide"; "portrait" := "slide" ]}.

Definition loadSettings (currentSettings : gmap string string) (w : World)
    : gmap string string * World :=
  let '(saved, w) := UtilsIO.getFromJSON "animation_settings.json" w in
  match saved with
  | Some (StoredSettings m) => (m ∪ currentSettings, w)
  | _ => (currentSettings, w)
  end.

Definition saveSettings (currentSettings : gmap string string) (w : World) : World :=
  UtilsIO.saveToJSON "animation_settings.json" (StoredSettings currentSettings) w.

(** [option] is the clicked element, known by its [dataset.animationId]. *)
Definition selectAnimation (type : string) (animationId : string)
    (currentSettings : gmap string string) : gmap string string :=
  <[type := animationId]> currentSettings.

(** [new AnimationManager()], as far as the settings go. *)
Definition constructor (w : World) : gmap string string * World :=
  loadSettings defaultSettings w.

Definition getAnimationClass (type : string) (currentSettings : gmap string string) : string :=
  default "animation-slide"
    (currentSettings !! type ≫= λ animationId,
       snd <$> List.find (λ a, bool_decide (fst a = animationId)) animations).

End AnimationManager.

(** ** [App]: the page as a whole *)

Module App.

(** The world before [initComponents]: nothing allocated, no timer. *)
Definition initial (st : LocalStorage) (pg : Page) : World :=
  {| heap := ∅; next_ref := 0%nat; storage := st; page := pg;
     timers := ∅; next_timer := 1%positive; clock := 0%nat; trace := [];
     gallery := {| wallpapers := 0%nat; landscapeWallpapers := 0%nat;
                   portraitWallpapers := 0%nat; currentSlideIndex := 0;
                   isPlaying := false; slideInterval := None; slideDuration := 5000;
                   animationSettings := ∅; isFullscreen := false |};
     lightbox := {| currentIndex := 0; currentWallpapers := 0%nat; isOpen := false |} |}.

(** [initComponents]: the lightbox first, then the gallery; the scroll and
    search helpers are not modelled. *)
Definition initComponents (st : LocalStorage) (pg : Page) : World :=
  UtilsIO.hideLoading (Gallery.constructor (Lightbox.constructor (initial st pg))).

(** One of the listeners bound by [initVerticalGalleryNav]. *)
Definition verticalKey (key : string) (w : World) : World :=
  if bool_decide (key = "ArrowUp") then Gallery.navigateVerticalGallery (-1) w
  else if bool_decide (key = "ArrowDown") then Gallery.navigateVerticalGallery 1 w
  else w.

(** A [keydown] on the document runs every listener, in the order they were
    added: the lightbox's, the gallery's, then those of the vertical
    gallery. *)
Definition keydown (key : string) (w : World) : World :=
  let w := Lightbox.handleKeyboard key w in
  let w := Gallery.handleKeyboardNavigation key w in
  Nat.iter (verticalNavBindings (page w)) (verticalKey key) w.

(** Calls into the gallery that do not reach the lightbox. *)
Inductive GalleryCall :=
  | HandleFileImport (files : list File)
  | AddWallpaper (file : File)
  | ClassifyWallpapers
  | LoadWallpapers
  | SaveWallpapers
  | LoadAnimationSettings
  | RenderGallery
  | NavigateVerticalGallery (direction : Z)
  | PrevSlide
  | NextSlide
  | TimeoutFires
  | IntervalFires (h : positive)
  | TogglePlay
  | StartSlideShow
  | StopSlideShow.

Definition call (c : GalleryCall) (w : World) : World :=
  match c with
  | HandleFileImport files => exec (Gallery.handleFileImport files) w
  | AddWallpaper file => exec (Gallery.addWallpaper file) w
  | ClassifyWallpapers => Gallery.classifyWallpapers w
  | LoadWallpapers => Gallery.loadWallpapers w
  | SaveWallpapers => Gallery.saveWallpapers w
  | LoadAnimationSettings => Gallery.loadAnimationSettings w
  | RenderGallery => Gallery.renderGallery w
  | NavigateVerticalGallery direction => Gallery.navigateVerticalGallery direction w
  | PrevSlide => Gallery.prevSlide w
  | NextSlide => Gallery.nextSlide w
  | TimeoutFires => Gallery.timeoutFires w
  | IntervalFires h => Gallery.intervalFires h w
  | TogglePlay => Gallery.togglePlay w
  | StartSlideShow => Gallery.startSlideShow w
  | StopSlideShow => Gallery.stopSlideShow w
  end.

(** What can happen on the page once it is up. *)
Inductive Event :=
  | GalleryDoes (c : GalleryCall)
  | OpenLightbox (index : Z) (type : string)
  | LightboxClose
  | LightboxPrev
  | LightboxNext
  | KeyDown (key : string).

Definition step (w : World) (e : Event) : World :=
  match e with
  | GalleryDoes c => call c w
  | OpenLightbox index type => Gallery.openLightbox index type w
  | LightboxClose => Lightbox.close w
  | LightboxPrev => Lightbox.prev w
  | LightboxNext => Lightbox.next w
  | KeyDown key => keydown key w
  end.

Definition run (events : list Event) (w : World) : World :=
  foldl step w events.

Definition calls (cs : list GalleryCall) (w : World) : World :=
  foldl (λ w c, call c w) w cs.

End App.

(** ** Observations *)

Definition master (w : World) : list Wallpaper := deref w (wallpapers (gallery w)).
Definition landscape (w : World) : list Wallpaper := deref w (landscapeWallpapers (gallery w)).
Definition portrait (w : World) : list Wallpaper := deref w (portraitWallpapers (gallery w)).

Definition persists (w : World) : nat :=
  length (List.filter (λ e, match e with SetItem _ => true | _ => false end) (trace w)).

Definition renders (w : World) : nat :=
  length (List.filter (λ e, match e with Render => true | _ => false end) (trace w)).

(** ** Sample data *)

Module Sample.

Definition file (n : string) (img : option Image) : File :=
  {| file_name := n; file_size := 1024; file_type := "image/jpeg"; file_image := img |}.

Definition r1 : File := file "one.jpg" (Some {| img_width := 800; img_height := 600 |}).
Definition r2 : File := file "two.png" None.
Definition r3 : File := file "three.webp" (Some {| img_width := 600; img_height := 800 |}).

Definition wp (n : string) (wd ht : Z) : Wallpaper :=
  {| id := n; name := n; originalName := n; size := 1024; width := wd; height := ht;
     type := "image/jpeg"; thumbnail := "data:image/jpeg;base64,"; url := "blob:" +:+ n;
     uploadedAt := "0"; tags := [] |}.

Definition emptyStorage : LocalStorage :=
  {| items := ∅; getItem_ok := true; setItem_ok := true |}.

Definition storageWith (l : list Wallpaper) : LocalStorage :=
  {| items := {[ "json_wallpapers" := StoredWallpapers l ]};
     getItem_ok := true; setItem_ok := true |}.

(** A page with every node the scripts look for. *)
Definition fullPage : Page :=
  {| screenInner := true; slides := []; verticalGallery := true; galleryItems := [];
     galleryNav := true; verticalNavBindings := 0; slideCounter := Some "";
     playBtn := Some false; loading := Some ["loading"; "active"];
     lightboxNode := Some ["lightbox"]; lightboxImageNode := true;
     bodyOverflow := ""; fileInputValue := "C:\fakepath\one.jpg";
     cleanupTimeouts := []; imageLoads := [] |}.

Definition fresh : World := App.initComponents emptyStorage fullPage.

(** The page started on a saved collection. *)
Definition started (l : list Wallpaper) : World :=
  App.initComponents (storageWith l) fullPage.

Definition a : Wallpaper := wp "a" 800 600.
Definition b : Wallpaper := wp "b" 600 800.
Definition c : Wallpaper := wp "c" 1000 500.
Definition d : Wallpaper := wp "d" 500 900.

(** A record with a zero height. *)
Definition flat : Wallpaper := wp "flat" 5 0.

(** Two landscape and two portrait records. *)
Definition four : World := started [a; b; c; d].

(** The lightbox opened on the landscape sub-list of [four]. *)
Definition opened : World := Gallery.openLightbox 0 "landscape" four.

(** A single landscape record. *)
Definition single : World := started [a].

End Sample.


(** ** Vocabulary of the properties *)

(** Everything the invariants below look at: methods that only touch the
    page, the trace, the storage or the cursors leave it alone. *)
Record Core := {
  c_heap : gmap ref (list Wallpaper);
  c_next_ref : ref;
  c_master : ref;
  c_landscape : ref;
  c_portrait : ref;
  c_lightbox : LightboxState;
  c_timers : gset positive;
  c_interval : option positive
}.

Definition core (w : World) : Core :=
  {| c_heap := heap w; c_next_ref := next_ref w;
     c_master := wallpapers (gallery w);
     c_landscape := landscapeWallpapers (gallery w);
     c_portrait := portraitWallpapers (gallery w);
     c_lightbox := lightbox w;
     c_timers := timers w;
     c_interval := slideInterval (gallery w) |}.

(** The cursor and the flags of the gallery are not part of it. *)
Definition same_refs (g g' : GalleryState) : Prop :=
  wallpapers g' = wallpapers g ∧
  landscapeWallpapers g' = landscapeWallpapers g ∧
  portraitWallpapers g' = portraitWallpapers g ∧
  slideInterval g' = slideInterval g.

(** The master list, the two sub-lists and the list pinned by the lightbox
    are allocated arrays; the master list is an object of its own; the only
    live timer is the one the gallery holds the handle of. *)
Record refs_ok (w : World) : Prop := {
  ok_master : (wallpapers (gallery w) < next_ref w)%nat;
  ok_landscape : (landscapeWallpapers (gallery w) < next_ref w)%nat;
  ok_portrait : (portraitWallpapers (gallery w) < next_ref w)%nat;
  ok_pinned : (currentWallpapers (lightbox w) < next_ref w)%nat;
  ok_master_landscape : wallpapers (gallery w) ≠ landscapeWallpapers (gallery w);
  ok_master_portrait : wallpapers (gallery w) ≠ portraitWallpapers (gallery w);
  ok_master_pinned : wallpapers (gallery w) ≠ currentWallpapers (lightbox w);
  ok_timers : timers w = match slideInterval (gallery w) with
                         | Some h => {[h]}
                         | None => ∅
                         end
}.

(** In addition the two sub-lists are the classification of the master list. *)
Record wf (w : World) : Prop := {
  wf_refs : refs_ok w;
  wf_landscape : landscape w = List.filter Gallery.wallpaper_isLandscape (master w);
  wf_portrait : portrait w = List.filter Gallery.wallpaper_isPortrait (master w)
}.

(** The record [addWallpaper] builds for a file that decodes to [img], in
    world [w]. *)
Definition new_wallpaper (file : File) (img : Image) (w : World) : Wallpaper :=
  {| id := "id" +:+ pretty (clock w);
     name := file_name file;
     originalName := file_name file;
     size := file_size file;
     width := img_width img;
     height := img_height img;
     type := file_type file;
     thumbnail := "data:image/jpeg;base64,";
     url := "blob:" +:+ pretty (S (clock w));
     uploadedAt := pretty (S (S (clock w)));
     tags := [] |}.

(** The world [addWallpaper] leaves when the file decodes to [img]. *)
Definition added (file : File) (img : Image) (w : World) : World :=
  Gallery.classifyWallpapers
    (push (wallpapers (gallery w)) (new_wallpaper file img w)
       (set_clock S (set_clock S w))).

(** The body of the loop of [handleFileImport]. *)
Definition import_one (file : File) : M unit :=
  if Utils.isImage file then Gallery.addWallpaper file >>> ret tt else ret tt.

Definition decodes (file : File) : Prop :=
  Utils.isImage file = true → is_Some (file_image file).

Definition imported_names (files : list File) : list string :=
  file_name <$> List.filter Utils.isImage files.

(** What a world keeps of the run of the loop, besides the arrays. *)
Definition same_surroundings (w w' : World) : Prop :=
  page w' = page w ∧ storage w' = storage w ∧ lightbox w' = lightbox w ∧
  timers w' = timers w ∧ slideInterval (gallery w') = slideInterval (gallery w).

(** The world after the [try] block ran to its end, from the world [w'] the
    loop left. *)
Definition after_batch (w' : World) : World :=
  UtilsIO.hideLoading
    (set_page (with_fileInputValue "")
       (Gallery.renderGallery (Gallery.saveWallpapers w'))).

(** The world after the [catch] block, from the world [w'] of the throw. *)
Definition after_throw (w' : World) : World :=
  UtilsIO.hideLoading (emit_effect (ConsoleError "导入壁纸失败:") w').

(** The lightbox is in state [lb], browsing the array [currentWallpapers lb]
    whose content is [content], and that array is not the master list. *)
Record pinned (lb : LightboxState) (content : option (list Wallpaper)) (w : World) : Prop := {
  pinned_lightbox : lightbox w = lb;
  pinned_content : heap w !! currentWallpapers lb = content;
  pinned_allocated : (currentWallpapers lb < next_ref w)%nat;
  pinned_apart : wallpapers (gallery w) ≠ currentWallpapers lb
}.

Definition slideCount (w : World) : Z :=
  array_length w (landscapeWallpapers (gallery w)).

Definition slideCursor (w : World) : Z := currentSlideIndex (gallery w).

Definition pinnedCount (w : World) : Z :=
  array_length w (currentWallpapers (lightbox w)).

Definition pinnedCursor (w : World) : Z := currentIndex (lightbox w).

(** The array [openLightbox] passes on for a [type]. *)
Definition sublist_ref (type : string) (w : World) : ref :=
  if bool_decide (type = "landscape")
  then landscapeWallpapers (gallery w)
  else portraitWallpapers (gallery w).

(** The nodes [Lightbox.open] needs are on the page. *)
Definition overlay_present (w : World) : Prop :=
  is_Some (lightboxNode (page w)) ∧ lightboxImageNode (page w) = true.

(** ** Vocabulary of the further properties *)

(** The character [c] occurs in [s]. *)
Fixpoint occurs (c : ascii) (s : string) : bool :=
  match s with
  | EmptyString => false
  | String a rest => Ascii.eqb a c || occurs c rest
  end.

(** A [File] under another name. *)
Definition renamed (n : string) (file : File) : File :=
  {| file_name := n; file_size := file_size file; file_type := file_type file;
     file_image := file_image file |}.

(** The collection a page load reads from a storage: the saved list, or
    the default when nothing is saved or the storage cannot be read. *)
Definition stored_wallpapers (st : LocalStorage) : list Wallpaper :=
  if getItem_ok st
  then match items st !! "json_wallpapers" with
       | Some (StoredWallpapers l) => l
       | _ => []
       end
  else [].


(** The element carries the class [c]. *)
Definition has_class (c : string) (e : Element) : bool :=
  ClassList.contains c (classList e).

(** The slide at position [i] is the slide of index [i], and it is the
    active one exactly when the cursor is [i]. *)
Definition slide_ok (cursor : Z) (i : nat) (e : Element) : bool :=
  bool_decide (data_index e = Some (Z.of_nat i)) &&
  Bool.eqb (has_class "active" e) (bool_decide (Z.of_nat i = cursor)).

(** The page shows the landscape sub-list: one slide per record, in order,
    the cursor on one of them, and that one alone active. *)
Definition slides_in_sync (w : World) : bool :=
  bool_decide (Z.of_nat (length (slides (page w))) = slideCount w) &&
  bool_decide (0 ≤ slideCursor w < slideCount w) &&
  forallb (λ b, b) (imap (slide_ok (slideCursor w)) (slides (page w))).



(** The classes [updateVerticalGalleryItems] clears from every item. *)
Definition bandClasses : list string := ["active"; "prev"; "next"].

(** The items of the vertical gallery, as [navigateVerticalGallery] sees
    them. *)
Definition wallItems (w : World) : list Element := galleryItems (page w).





(** The cursor of the lightbox is on a record of its list (on the first
    place of an empty list), and an open lightbox has a list that is not
    empty. *)
Definition lightbox_ok (w : World) : Prop :=
  0 ≤ pinnedCursor w < Z.max 1 (pinnedCount w) ∧
  (isOpen (lightbox w) = true → 1 ≤ pinnedCount w).



(** ** [App.updateActiveNavLink]

    [navLinks] are the [.nav-link] elements in document order; [activeLink]
    is a handle on one of them, or [null]; a handle on no element of the
    list leaves every link of the list without the class. *)

Module AppNav.

Definition updateActiveNavLink (activeLink : option nat) (navLinks : list Element)
    : list Element :=
  let navLinks := remove_classes ["active"] <$> navLinks in
  match activeLink with
  | Some link => alter (add_class "active") link navLinks
  | None => navLinks
  end.

End AppNav.

(** ** [AnimationManager]: the options on the page

    A container is known by the category in its id ([#landscape-animations],
    [#portrait-animations]) and holds its options in document order; a
    category without an entry has no container on the page. *)

Module AnimationPage.

Record AnimationOption := {
  animationId : string;
  optionClasses : list string
}.

Record Manager := {
  currentSettings : gmap string string;
  containers : gmap string (list AnimationOption)
}.

Definition createAnimationOption (id : string) (isSelected : bool) : AnimationOption :=
  {| animationId := id;
     optionClasses := if isSelected then ["animation-option"; "selected"]
                      else ["animation-option"] |}.

(** [selectedId] is [this.currentSettings[type]], which may be undefined. *)
Definition renderAnimationGroup (type : string) (selectedId : option string) (m : Manager)
    : Manager :=
  match containers m !! type with
  | None => m
  | Some _ =>
      {| currentSettings := currentSettings m;
         containers :=
           <[type := (λ a, createAnimationOption a.1 (bool_decide (selectedId = Some a.1)))
                       <$> AnimationManager.animations]> (containers m) |}
  end.

Definition renderAnimationOptions (m : Manager) : Manager :=
  let m := renderAnimationGroup "landscape" (currentSettings m !! "landscape") m in
  renderAnimationGroup "portrait" (currentSettings m !! "portrait") m.

Definition deselect (o : AnimationOption) : AnimationOption :=
  {| animationId := animationId o;
     optionClasses := ClassList.remove ["selected"] (optionClasses o) |}.

Definition select (o : AnimationOption) : AnimationOption :=
  {| animationId := animationId o;
     optionClasses := ClassList.add "selected" (optionClasses o) |}.

(** A click on the option at place [option] of the container of [type]:
    the listener of that container calls [selectAnimation(type, option)]. *)
Definition selectAnimation (type : string) (option : nat) (m : Manager) : Manager :=
  match containers m !! type with
  | None => m
  | Some options =>
      match options !! option with
      | None => m
      | Some o =>
          {| currentSettings :=
               AnimationManager.selectAnimation type (animationId o) (currentSettings m);
             containers := <[type := alter select option (deselect <$> options)]> (containers m) |}
      end
  end.

Definition clicks (l : list (string * nat)) (m : Manager) : Manager :=
  foldl (λ m c, selectAnimation c.1 c.2 m) m l.

(** The container of [type], when there is one, shows the catalog in its
    order, and the options marked [selected] are those the settings name
    for [type]. *)
Definition shown (type : string) (m : Manager) : Prop :=
  ∀ options, containers m !! type = Some options →
    animationId <$> options = AnimationManager.animations.*1 ∧
    ∀ i o, options !! i = Some o →
      ClassList.contains "selected" (optionClasses o) =
        bool_decide (currentSettings m !! type = Some (animationId o)).

End AnimationPage.

(** ** [Utils.debounce] and [Utils.throttle]

    The function each of them returns is a closure over one variable; a
    state holds that variable, the timeouts the closure has set and not yet
    seen fire, and the arguments [func] was applied to so far. *)

Module Debounce.

Section Closure.

Context {A : Type}.

Record State := {
  timeoutId : option positive;
  waiting : gmap positive A;
  next_handle : positive;
  applied : list A
}.

(** [Utils.debounce(func, delay)] *)
Definition debounce : State :=
  {| timeoutId := None; waiting := ∅; next_handle := 1%positive; applied := [] |}.

Definition clearTimeout (h : option positive) (t : gmap positive A) : gmap positive A :=
  match h with
  | Some h => delete h t
  | None => t
  end.

(** One call of the returned function with [args]. *)
Definition invoke (args : A) (s : State) : State :=
  let h := next_handle s in
  {| timeoutId := Some h;
     waiting := <[h := args]> (clearTimeout (timeoutId s) (waiting s));
     next_handle := Pos.succ h;
     applied := applied s |}.

(** The timeout [h] fires, if it was not cleared. *)
Definition fire (h : positive) (s : State) : State :=
  match waiting s !! h with
  | Some args =>
      {| timeoutId := timeoutId s;
         waiting := delete h (waiting s);
         next_handle := next_handle s;
         applied := applied s ++ [args] |}
  | None => s
  end.

Inductive Event :=
  | Invoke (args : A)
  | Fire (h : positive).

Definition step (s : State) (e : Event) : State :=
  match e with
  | Invoke args => invoke args s
  | Fire h => fire h s
  end.

Definition run (events : list Event) (s : State) : State := foldl step s events.

(** Every timeout still waiting is the one the closure remembers. *)
Definition one_waiting (s : State) : Prop :=
  ∀ h args, waiting s !! h = Some args → timeoutId s = Some h.

End Closure.

End Debounce.

Module Throttle.

Section Closure.

Context {A : Type}.

Record State := {
  inThrottle : bool;
  resets : nat;
  applied : list A
}.

(** [Utils.throttle(func, limit)] *)
Definition throttle : State :=
  {| inThrottle := false; resets := 0; applied := [] |}.

(** One call of the returned function with [args]. *)
Definition invoke (args : A) (s : State) : State :=
  if inThrottle s then s
  else {| inThrottle := true; resets := S (resets s); applied := applied s ++ [args] |}.

(** A reset timeout fires, if one is waiting. *)
Definition fire (s : State) : State :=
  match resets s with
  | O => s
  | S n => {| inThrottle := false; resets := n; applied := applied s |}
  end.

Inductive Event :=
  | Invoke (args : A)
  | Fire.

Definition step (s : State) (e : Event) : State :=
  match e with
  | Invoke args => invoke args s
  | Fire => fire s
  end.

Definition run (events : list Event) (s : State) : State := foldl step s events.

Definition fires (events : list Event) : nat :=
  length (List.filter (λ e, match e with Fire => true | Invoke _ => false end) events).

End Closure.

End Throttle.

(** * Properties *)

(** ** Classification *)

Section Classification.

Import Gallery.

Lemma isLandscape_spec (wd ht : Z) : Utils.isLandscape wd ht = true ↔ wd > ht.
Proof. unfold Utils.isLandscape. rewrite Z.ltb_lt. lia. Qed.

Lemma isPortrait_spec (wd ht : Z) : Utils.isPortrait wd ht = true ↔ ht >= wd.
Proof. unfold Utils.isPortrait. rewrite Z.leb_le. lia. Qed.

Lemma isPortrait_negb (wd ht : Z) : Utils.isPortrait wd ht = negb (Utils.isLandscape wd ht).
Proof. unfold Utils.isPortrait, Utils.isLandscape. lia. Qed.

Lemma filter_partition_length {A} (f g : A → bool) (l : list A) :
  (∀ x, g x = negb (f x)) →
  (length (List.filter f l) + length (List.filter g l))%nat = length l.
Proof.
  intros Hneg. induction l as [|x l IH]; simpl; [done|].
  rewrite Hneg. destruct (f x); simpl; lia.
Qed.

Lemma filter_partition_perm {A} (f g : A → bool) (l : list A) :
  (∀ x, g x = negb (f x)) →
  List.filter f l ++ List.filter g l ≡ₚ l.
Proof.
  intros Hneg. induction l as [|x l IH]; simpl; [done|].
  rewrite Hneg. destruct (f x); simpl.
  - by rewrite IH.
  - by rewrite <- Permutation_middle, IH.
Qed.

Lemma filter_disjoint {A} (f g : A → bool) (l : list A) (x : A) :
  (∀ x, g x = negb (f x)) →
  x ∈ List.filter f l → x ∈ List.filter g l → False.
Proof.
  intros Hneg Hf Hg.
  apply list_elem_of_In, filter_In in Hf as [_ Hf].
  apply list_elem_of_In, filter_In in Hg as [_ Hg].
  rewrite Hneg, Hf in Hg. done.
Qed.

Lemma wallpaper_isPortrait_negb (wp : Wallpaper) :
  wallpaper_isPortrait wp = negb (wallpaper_isLandscape wp).
Proof. apply isPortrait_negb. Qed.

(** What [classifyWallpapers] leaves in the two fields, in terms of the
    master list it read. *)
Lemma classifyWallpapers_sublists (w : World) :
  landscape (classifyWallpapers w) = List.filter wallpaper_isLandscape (master w) ∧
  portrait (classifyWallpapers w) = List.filter wallpaper_isPortrait (master w).
Proof.
  unfold landscape, portrait, master, classifyWallpapers, deref; simpl. split.
  - rewrite lookup_insert_ne by lia. by rewrite lookup_insert_eq.
  - by rewrite lookup_insert_eq.
Qed.

End Classification.

(** ** The part of the world the arrays and the timer live in *)

Section CoreLemmas.

Lemma core_set_page f w : core (set_page f w) = core w.
Proof. done. Qed.

Lemma core_set_storage f w : core (set_storage f w) = core w.
Proof. done. Qed.

Lemma core_set_clock f w : core (set_clock f w) = core w.
Proof. done. Qed.

Lemma core_emit_effect e w : core (emit_effect e w) = core w.
Proof. done. Qed.

Lemma core_set_gallery f w :
  (∀ g, same_refs g (f g)) → core (set_gallery f w) = core w.
Proof.
  intros Hf. destruct (Hf (gallery w)) as (H1 & H2 & H3 & H4).
  unfold core; simpl. by rewrite H1, H2, H3, H4.
Qed.

Lemma same_refs_cursor c g : same_refs g (with_currentSlideIndex c g).
Proof. done. Qed.

Lemma same_refs_isPlaying b g : same_refs g (with_isPlaying b g).
Proof. done. Qed.

Lemma same_refs_settings m g : same_refs g (with_animationSettings m g).
Proof. done. Qed.

Lemma core_deref w w' r : core w = core w' → deref w r = deref w' r.
Proof. intros H. unfold deref. by rewrite (f_equal c_heap H : heap w = heap w'). Qed.

Lemma core_array_length w w' r : core w = core w' → array_length w r = array_length w' r.
Proof. intros H. unfold array_length. by rewrite (core_deref _ _ _ H). Qed.

Lemma core_lightbox w w' : core w = core w' → lightbox w = lightbox w'.
Proof. intros H. exact (f_equal c_lightbox H). Qed.

Lemma core_master w w' : core w = core w' → master w = master w'.
Proof.
  intros H. unfold master.
  rewrite (f_equal c_master H : wallpapers (gallery w) = _). by apply core_deref.
Qed.

Lemma core_landscape w w' : core w = core w' → landscape w = landscape w'.
Proof.
  intros H. unfold landscape.
  rewrite (f_equal c_landscape H : landscapeWallpapers (gallery w) = _). by apply core_deref.
Qed.

Lemma core_portrait w w' : core w = core w' → portrait w = portrait w'.
Proof.
  intros H. unfold portrait.
  rewrite (f_equal c_portrait H : portraitWallpapers (gallery w) = _). by apply core_deref.
Qed.

End CoreLemmas.

#[local] Hint Resolve same_refs_cursor same_refs_isPlaying same_refs_settings : core.

(** Closes [core (f w) = core w] for a method [f] made of page, trace,
    storage and cursor updates, once [f] is unfolded. *)
Ltac core_step :=
  first
    [ rewrite core_set_page
    | rewrite core_set_storage
    | rewrite core_set_clock
    | rewrite core_emit_effect
    | rewrite core_set_gallery by auto with core
    | case_match ].

Ltac solve_core := intros; repeat core_step; try done.

Section CorePreserved.

Lemma core_showLoading w : core (UtilsIO.showLoading w) = core w.
Proof. done. Qed.

Lemma core_hideLoading w : core (UtilsIO.hideLoading w) = core w.
Proof. done. Qed.

Lemma core_saveToStorage k d w : core (UtilsIO.saveToStorage k d w) = core w.
Proof. unfold UtilsIO.saveToStorage. solve_core. Qed.

Lemma core_getFromStorage k w : core (UtilsIO.getFromStorage k w).2 = core w.
Proof. unfold UtilsIO.getFromStorage. solve_core. Qed.

Lemma core_saveWallpapers w : core (Gallery.saveWallpapers w) = core w.
Proof. apply core_saveToStorage. Qed.

Lemma core_loadAnimationSettings w : core (Gallery.loadAnimationSettings w) = core w.
Proof.
  unfold Gallery.loadAnimationSettings, UtilsIO.getFromJSON.
  pose proof (core_getFromStorage (Utils.json_key "animation_settings.json") w) as H.
  destruct (UtilsIO.getFromStorage _ w) as [saved w']; simpl in H.
  solve_core.
Qed.

Lemma core_updateSlideCounter w : core (Gallery.updateSlideCounter w) = core w.
Proof. done. Qed.

Lemma core_renderLandscapeSlider w : core (Gallery.renderLandscapeSlider w) = core w.
Proof. unfold Gallery.renderLandscapeSlider. solve_core. Qed.

Lemma core_initVerticalGalleryNav w : core (Gallery.initVerticalGalleryNav w) = core w.
Proof. unfold Gallery.initVerticalGalleryNav. solve_core. Qed.

Lemma core_renderVerticalGallery w : core (Gallery.renderVerticalGallery w) = core w.
Proof.
  unfold Gallery.renderVerticalGallery. solve_core.
  by rewrite core_initVerticalGalleryNav.
Qed.

Lemma core_renderGallery w : core (Gallery.renderGallery w) = core w.
Proof.
  unfold Gallery.renderGallery.
  by rewrite core_updateSlideCounter, core_renderVerticalGallery,
    core_renderLandscapeSlider.
Qed.

Lemma core_updateVerticalGalleryItems i w :
  core (Gallery.updateVerticalGalleryItems i w) = core w.
Proof. unfold Gallery.updateVerticalGalleryItems. solve_core. Qed.

Lemma core_navigateVerticalGallery d w :
  core (Gallery.navigateVerticalGallery d w) = core w.
Proof.
  unfold Gallery.navigateVerticalGallery. solve_core;
    by rewrite core_updateVerticalGalleryItems.
Qed.

Lemma core_on_slide pos f w : core (Gallery.on_slide pos f w) = core w.
Proof. done. Qed.

Lemma core_transitionSlides cur nxt d w :
  core (Gallery.transitionSlides cur nxt d w) = core w.
Proof. unfold Gallery.transitionSlides. destruct cur, nxt; done. Qed.

Lemma core_cleanup cur w : core (Gallery.cleanup cur w) = core w.
Proof. done. Qed.

Lemma core_timeoutFires w : core (Gallery.timeoutFires w) = core w.
Proof. unfold Gallery.timeoutFires. by case_match. Qed.

Lemma core_prevSlide w : core (Gallery.prevSlide w) = core w.
Proof.
  unfold Gallery.prevSlide. case_match; [done|].
  rewrite core_updateSlideCounter, core_transitionSlides. solve_core.
Qed.

Lemma core_nextSlide w : core (Gallery.nextSlide w) = core w.
Proof.
  unfold Gallery.nextSlide. case_match; [done|].
  rewrite core_updateSlideCounter, core_transitionSlides. solve_core.
Qed.

Lemma core_intervalFires h w : core (Gallery.intervalFires h w) = core w.
Proof. unfold Gallery.intervalFires. case_match; [apply core_nextSlide|done]. Qed.

End CorePreserved.

(** ** Invariants of the running page *)

Section Invariants.

Lemma refs_ok_core w w' : core w' = core w → refs_ok w → refs_ok w'.
Proof.
  intros H [].
  pose proof (f_equal c_next_ref H) as Hn. pose proof (f_equal c_master H) as Hm.
  pose proof (f_equal c_landscape H) as Hl. pose proof (f_equal c_portrait H) as Hp.
  pose proof (f_equal c_lightbox H) as Hb. pose proof (f_equal c_timers H) as Ht.
  pose proof (f_equal c_interval H) as Hi. simpl in *.
  split; rewrite ?Hn, ?Hm, ?Hl, ?Hp, ?Hb, ?Ht, ?Hi; done.
Qed.

Lemma wf_core w w' : core w' = core w → wf w → wf w'.
Proof.
  intros H [Hr Hl Hp]. split.
  - by apply (refs_ok_core w).
  - by rewrite (core_landscape _ _ H), (core_master _ _ H).
  - by rewrite (core_portrait _ _ H), (core_master _ _ H).
Qed.

Lemma refs_ok_push x w :
  refs_ok w → refs_ok (push (wallpapers (gallery w)) x w).
Proof. intros []. by split. Qed.

Lemma master_push x w :
  master (push (wallpapers (gallery w)) x w) = master w ++ [x].
Proof. unfold master, push, deref; simpl. by rewrite lookup_insert_eq. Qed.

Lemma master_classifyWallpapers w :
  (wallpapers (gallery w) < next_ref w)%nat →
  master (Gallery.classifyWallpapers w) = master w.
Proof.
  intros Hlt. unfold master, Gallery.classifyWallpapers, deref; simpl.
  by rewrite !lookup_insert_ne by lia.
Qed.

Lemma wf_classifyWallpapers w : refs_ok w → wf (Gallery.classifyWallpapers w).
Proof.
  intros Hok. destruct (classifyWallpapers_sublists w) as [Hl Hp].
  pose proof (master_classifyWallpapers w (ok_master _ Hok)) as Hm.
  destruct Hok. split; [|by rewrite Hm..].
  unfold Gallery.classifyWallpapers; split; simpl; try lia; done.
Qed.

Lemma wf_loadWallpapers w : refs_ok w → wf (Gallery.loadWallpapers w).
Proof.
  intros Hok. unfold Gallery.loadWallpapers, UtilsIO.getFromJSON.
  pose proof (core_getFromStorage (Utils.json_key "wallpapers.json") w) as H.
  destruct (UtilsIO.getFromStorage _ w) as [saved w1]; simpl in H.
  apply (refs_ok_core w w1) in Hok; [|done].
  apply wf_classifyWallpapers. destruct Hok.
  split; simpl; try lia; done.
Qed.

Lemma wf_set_lightbox f w :
  wf w →
  (currentWallpapers (f (lightbox w)) < next_ref w)%nat →
  wallpapers (gallery w) ≠ currentWallpapers (f (lightbox w)) →
  wf (set_lightbox f w).
Proof. intros [[] Hl Hp] ??. split; [split|..]; done. Qed.

Lemma wf_startSlideShow w : wf w → wf (Gallery.startSlideShow w).
Proof.
  intros Hwf. unfold Gallery.startSlideShow.
  destruct (slideInterval (gallery w)) eqn:Hi; [done|].
  destruct Hwf as [[] Hl Hp]. rewrite Hi in ok_timers0.
  split; [split|..]; simpl; try done.
  rewrite ok_timers0. apply union_empty_r_L.
Qed.

Lemma wf_stopSlideShow w : wf w → wf (Gallery.stopSlideShow w).
Proof.
  intros Hwf. unfold Gallery.stopSlideShow.
  destruct (slideInterval (gallery w)) eqn:Hi; [|done].
  destruct Hwf as [[] Hl Hp]. rewrite Hi in ok_timers0.
  split; [split|..]; simpl; try done.
  rewrite ok_timers0. apply difference_diag_L.
Qed.

Lemma wf_togglePlay w : wf w → wf (Gallery.togglePlay w).
Proof.
  intros Hwf. unfold Gallery.togglePlay.
  assert (wf (set_gallery (λ g, with_isPlaying (negb (isPlaying g)) g) w)) as Hwf1.
  { eapply wf_core; [|done]. by apply core_set_gallery. }
  repeat case_match; try done.
  - apply wf_startSlideShow. eapply wf_core; [apply core_set_page|done].
  - apply wf_stopSlideShow. eapply wf_core; [apply core_set_page|done].
Qed.

End Invariants.

(** ** Import of files *)

Section ImportFiles.

Lemma addWallpaper_ok file img w :
  file_image file = Some img →
  Gallery.addWallpaper file w = (Return (new_wallpaper file img w), added file img w).
Proof.
  intros Himg.
  unfold Gallery.addWallpaper, try_catch, bind, UtilsIO.getImageDimensions,
    UtilsIO.generateThumbnail.
  rewrite Himg. reflexivity.
Qed.

Lemma addWallpaper_fail file w :
  file_image file = None →
  Gallery.addWallpaper file w =
    (Throw "无法读取图片尺寸", emit_effect (ConsoleError "添加壁纸失败:") w).
Proof.
  intros Himg.
  unfold Gallery.addWallpaper, try_catch, bind, UtilsIO.getImageDimensions.
  rewrite Himg. reflexivity.
Qed.

Lemma surroundings_classifyWallpapers w :
  trace (Gallery.classifyWallpapers w) = trace w ∧
  same_surroundings w (Gallery.classifyWallpapers w).
Proof. unfold Gallery.classifyWallpapers, same_surroundings. by cbn. Qed.

Lemma surroundings_push r x w :
  trace (push r x w) = trace w ∧ same_surroundings w (push r x w).
Proof. unfold push, same_surroundings. by cbn. Qed.

Lemma same_surroundings_trans w1 w2 w3 :
  same_surroundings w1 w2 → same_surroundings w2 w3 → same_surroundings w1 w3.
Proof. intros (?&?&?&?&?) (?&?&?&?&?). repeat split; congruence. Qed.

Lemma wf_addWallpaper_step file img w :
  wf w →
  wf (added file img w) ∧
  master (added file img w) = master w ++ [new_wallpaper file img w] ∧
  trace (added file img w) = trace w ∧ same_surroundings w (added file img w).
Proof.
  intros [Hok _ _]. unfold added.
  set (x := new_wallpaper file img w).
  set (w1 := set_clock S (set_clock S w)).
  assert (refs_ok w1) as Hok1 by (by apply (refs_ok_core w)).
  pose proof (refs_ok_push x w1 Hok1) as Hok2.
  change (wallpapers (gallery w)) with (wallpapers (gallery w1)).
  set (w2 := push (wallpapers (gallery w1)) x w1) in *.
  destruct (surroundings_classifyWallpapers w2) as [Ht3 Hs3].
  destruct (surroundings_push (wallpapers (gallery w1)) x w1) as [Ht2 Hs2].
  fold w2 in Ht2, Hs2.
  split; [by apply wf_classifyWallpapers|].
  split; [|split].
  - rewrite master_classifyWallpapers by apply Hok2.
    change (master w) with (master w1). apply master_push.
  - by rewrite Ht3, Ht2.
  - eapply same_surroundings_trans; [|exact Hs3].
    eapply same_surroundings_trans; [|exact Hs2].
    by unfold same_surroundings.
Qed.

Lemma import_one_decodes file w :
  wf w → decodes file →
  ∃ w', import_one file w = (Return tt, w') ∧ wf w' ∧
        name <$> master w' = (name <$> master w) ++ imported_names [file] ∧
        trace w' = trace w ∧ same_surroundings w w'.
Proof.
  intros Hwf Hdec. unfold import_one, imported_names, decodes in *. simpl.
  destruct (Utils.isImage file) eqn:Himg; simpl.
  - destruct Hdec as [img Hsome]; [done|].
    destruct (wf_addWallpaper_step file img w Hwf) as (Hwf' & Hm & Ht & Hs).
    eexists. unfold bind. rewrite (addWallpaper_ok _ img) by done.
    split; [reflexivity|]. split; [done|]. split; [|done].
    rewrite Hm, fmap_app. done.
  - exists w. rewrite app_nil_r. by split_and!.
Qed.

Lemma import_one_fails file w :
  Utils.isImage file = true → file_image file = None →
  import_one file w =
    (Throw "无法读取图片尺寸", emit_effect (ConsoleError "添加壁纸失败:") w).
Proof.
  intros Himg Hnone. unfold import_one, bind.
  by rewrite Himg, addWallpaper_fail.
Qed.

(** The loop over files that all decode. *)
Lemma loop_decodes files w :
  wf w → Forall decodes files →
  ∃ w', for_of files import_one w = (Return tt, w') ∧ wf w' ∧
        name <$> master w' = (name <$> master w) ++ imported_names files ∧
        trace w' = trace w ∧ same_surroundings w w'.
Proof.
  intros Hwf Hall. revert w Hwf.
  induction Hall as [|file files Hdec _ IH]; intros w Hwf.
  - exists w. unfold imported_names. simpl. rewrite app_nil_r. by split_and!.
  - destruct (import_one_decodes file w Hwf Hdec) as (w1 & Hrun1 & Hwf1 & Hm1 & Ht1 & Hs1).
    destruct (IH w1 Hwf1) as (w2 & Hrun2 & Hwf2 & Hm2 & Ht2 & Hs2).
    exists w2. simpl. unfold bind at 1. rewrite Hrun1, Hrun2.
    split; [done|]. split; [done|].
    split; [|split; [congruence|by eapply same_surroundings_trans]].
    rewrite Hm2, Hm1, <- app_assoc. f_equal.
    unfold imported_names. simpl. destruct (Utils.isImage file); done.
Qed.

(** The loop over files up to the first one that does not decode. *)
Lemma loop_fails pre bad post w :
  wf w → Forall decodes pre →
  Utils.isImage bad = true → file_image bad = None →
  ∃ w', for_of (pre ++ bad :: post) import_one w = (Throw "无法读取图片尺寸", w') ∧ wf w' ∧
        name <$> master w' = (name <$> master w) ++ imported_names pre ∧
        trace w' = trace w ++ [ConsoleError "添加壁纸失败:"] ∧ same_surroundings w w'.
Proof.
  intros Hwf Hall Himg Hnone. revert w Hwf.
  induction Hall as [|file files Hdec _ IH]; intros w Hwf.
  - exists (emit_effect (ConsoleError "添加壁纸失败:") w). simpl. unfold bind.
    rewrite import_one_fails by done.
    split; [done|]. split; [by apply (wf_core w)|].
    unfold imported_names. simpl. rewrite app_nil_r. by split_and!.
  - destruct (import_one_decodes file w Hwf Hdec) as (w1 & Hrun1 & Hwf1 & Hm1 & Ht1 & Hs1).
    destruct (IH w1 Hwf1) as (w2 & Hrun2 & Hwf2 & Hm2 & Ht2 & Hs2).
    exists w2. simpl. unfold bind at 1. rewrite Hrun1, Hrun2.
    split; [done|]. split; [done|].
    split; [|split; [congruence|by eapply same_surroundings_trans]].
    rewrite Hm2, Hm1, <- app_assoc. f_equal.
    unfold imported_names. simpl. destruct (Utils.isImage file); done.
Qed.

(** Any list of files is of one of the two kinds. *)
Lemma files_decode_or_not files :
  Forall decodes files ∨
  ∃ pre bad post, files = pre ++ bad :: post ∧ Forall decodes pre ∧
                  Utils.isImage bad = true ∧ file_image bad = None.
Proof.
  induction files as [|file files IH]; [by left|].
  destruct (Utils.isImage file) eqn:Himg.
  - destruct (file_image file) as [img|] eqn:Hsome.
    + destruct IH as [IH|(pre & bad & post & -> & Hpre & Hb1 & Hb2)].
      * left. constructor; [|done]. intros _. by rewrite Hsome.
      * right. exists (file :: pre), bad, post. split; [done|].
        split; [|done]. constructor; [|done]. intros _. by rewrite Hsome.
    + right. by exists [], file, files.
  - destruct IH as [IH|(pre & bad & post & -> & Hpre & Hb1 & Hb2)].
    + left. constructor; [|done]. intros ?. congruence.
    + right. exists (file :: pre), bad, post. split; [done|].
      split; [|done]. constructor; [|done]. intros ?. congruence.
Qed.

End ImportFiles.

Section ImportBatch.

Lemma trace_renderGallery w : trace (Gallery.renderGallery w) = trace w ++ [Render].
Proof.
  unfold Gallery.renderGallery, Gallery.updateSlideCounter,
    Gallery.renderVerticalGallery, Gallery.renderLandscapeSlider,
    Gallery.initVerticalGalleryNav.
  repeat case_match; done.
Qed.

Lemma persists_app w w' l :
  trace w' = trace w ++ l →
  persists w' =
    (persists w + length (List.filter (λ e, match e with SetItem _ => true | _ => false end) l))%nat.
Proof. intros H. unfold persists. by rewrite H, List.filter_app, length_app. Qed.

Lemma renders_app w w' l :
  trace w' = trace w ++ l →
  renders w' =
    (renders w + length (List.filter (λ e, match e with Render => true | _ => false end) l))%nat.
Proof. intros H. unfold renders. by rewrite H, List.filter_app, length_app. Qed.

Lemma trace_saveWallpapers w :
  ∃ l, trace (Gallery.saveWallpapers w) = trace w ++ SetItem "json_wallpapers" :: l ∧
       Forall (λ e, ∃ msg, e = ConsoleError msg) l.
Proof.
  unfold Gallery.saveWallpapers, UtilsIO.saveToJSON, UtilsIO.saveToStorage.
  change (Utils.json_key "wallpapers.json") with "json_wallpapers".
  simpl. destruct (setItem_ok (storage w)); simpl.
  - exists []. by split.
  - eexists [_]. rewrite <- app_assoc. split; [done|]. repeat constructor. by eexists.
Qed.

Lemma count_errors_persist l :
  Forall (λ e, ∃ msg, e = ConsoleError msg) l →
  length (List.filter (λ e, match e with SetItem _ => true | _ => false end) l) = 0%nat.
Proof. induction 1 as [|e l [msg ->] _ IH]; simpl; done. Qed.

Lemma count_errors_render l :
  Forall (λ e, ∃ msg, e = ConsoleError msg) l →
  length (List.filter (λ e, match e with Render => true | _ => false end) l) = 0%nat.
Proof. induction 1 as [|e l [msg ->] _ IH]; simpl; done. Qed.

Lemma handleFileImport_unfold files w :
  files ≠ [] →
  exec (Gallery.handleFileImport files) w =
    match for_of files import_one (UtilsIO.showLoading w) with
    | (Return _, w') => after_batch w'
    | (Throw _, w') => after_throw w'
    end.
Proof.
  intros Hne. unfold Gallery.handleFileImport, exec.
  rewrite bool_decide_eq_false_2 by done.
  unfold bind at 1, lift at 1, try_finally, try_catch. simpl.
  change (for_of files _) with (for_of files import_one).
  unfold bind at 1.
  destruct (for_of files import_one (UtilsIO.showLoading w)) as [[[]|e] w']; done.
Qed.

Lemma core_after_batch w : core (after_batch w) = core w.
Proof.
  unfold after_batch.
  by rewrite core_hideLoading, core_set_page, core_renderGallery, core_saveWallpapers.
Qed.

Lemma core_after_throw w : core (after_throw w) = core w.
Proof. done. Qed.

Lemma counts_after_batch w :
  persists (after_batch w) = S (persists w) ∧ renders (after_batch w) = S (renders w).
Proof.
  destruct (trace_saveWallpapers w) as (l & Hsave & Hl).
  assert (trace (after_batch w) = trace w ++ (SetItem "json_wallpapers" :: l) ++ [Render]) as Ht.
  { change (trace (after_batch w))
      with (trace (Gallery.renderGallery (Gallery.saveWallpapers w))).
    rewrite trace_renderGallery, Hsave. by rewrite <- app_assoc. }
  split.
  - rewrite (persists_app w _ _ Ht). simpl.
    rewrite List.filter_app, length_app, count_errors_persist by done. simpl. lia.
  - rewrite (renders_app w _ _ Ht). simpl.
    rewrite List.filter_app, length_app, count_errors_render by done. simpl. lia.
Qed.

Lemma wf_showLoading w : wf w → wf (UtilsIO.showLoading w).
Proof. by apply wf_core. Qed.

(** A non-empty batch whose accepted files all decode. *)
Lemma handleFileImport_decodes files w :
  wf w → files ≠ [] → Forall decodes files →
  let w' := exec (Gallery.handleFileImport files) w in
  wf w' ∧
  name <$> master w' = (name <$> master w) ++ imported_names files ∧
  persists w' = S (persists w) ∧ renders w' = S (renders w) ∧
  lightbox w' = lightbox w.
Proof.
  intros Hwf Hne Hall. simpl. rewrite handleFileImport_unfold by done.
  destruct (loop_decodes files _ (wf_showLoading w Hwf) Hall)
    as (w1 & -> & Hwf1 & Hm & Ht & (_ & _ & Hlb & _)).
  destruct (counts_after_batch w1) as [Hp Hr].
  pose proof (core_after_batch w1) as Hc.
  split; [by apply (wf_core w1)|].
  rewrite (core_master _ _ Hc), Hm, Hp, Hr, (core_lightbox _ _ Hc), Hlb.
  unfold persists, renders. by rewrite Ht.
Qed.

(** A batch with an accepted file that does not decode: the files after it
    are not looked at, and the [try] block is left before it saves. *)
Lemma handleFileImport_fails pre bad post w :
  wf w → Forall decodes pre →
  Utils.isImage bad = true → file_image bad = None →
  let w' := exec (Gallery.handleFileImport (pre ++ bad :: post)) w in
  wf w' ∧
  name <$> master w' = (name <$> master w) ++ imported_names pre ∧
  persists w' = persists w ∧ renders w' = renders w ∧
  lightbox w' = lightbox w.
Proof.
  intros Hwf Hall Himg Hnone. simpl.
  rewrite handleFileImport_unfold by (by destruct pre).
  destruct (loop_fails pre bad post _ (wf_showLoading w Hwf) Hall Himg Hnone)
    as (w1 & -> & Hwf1 & Hm & Ht & (_ & _ & Hlb & _)).
  pose proof (core_after_throw w1) as Hc.
  split; [by apply (wf_core w1)|].
  rewrite (core_master _ _ Hc), Hm, (core_lightbox _ _ Hc), Hlb.
  split; [done|].
  unfold persists, renders, after_throw. simpl. rewrite Ht. simpl.
  rewrite <- !app_assoc, !List.filter_app. simpl. rewrite !app_nil_r. done.
Qed.

Lemma handleFileImport_empty w : Gallery.handleFileImport [] w = (Return tt, w).
Proof. done. Qed.

Lemma wf_handleFileImport files w :
  wf w → wf (exec (Gallery.handleFileImport files) w).
Proof.
  intros Hwf. destruct files as [|file files]; [done|].
  destruct (files_decode_or_not (file :: files))
    as [Hall|(pre & bad & post & -> & Hpre & Hb1 & Hb2)].
  - by apply handleFileImport_decodes.
  - by apply handleFileImport_fails.
Qed.

Lemma wf_addWallpaper file w : wf w → wf (exec (Gallery.addWallpaper file) w).
Proof.
  intros Hwf. unfold exec. destruct (file_image file) as [img|] eqn:Himg.
  - rewrite (addWallpaper_ok _ img) by done.
    by apply wf_addWallpaper_step.
  - rewrite addWallpaper_fail by done. by apply (wf_core w).
Qed.

End ImportBatch.

(** ** The invariants hold while the page runs *)

Section Reachable.

Lemma core_loadImage w : core (Lightbox.loadImage w) = core w.
Proof. unfold Lightbox.loadImage. solve_core. Qed.

Lemma wf_open data w :
  wf w →
  (∀ arr, detail_wallpapers data = Some arr →
          (arr < next_ref w)%nat ∧ wallpapers (gallery w) ≠ arr) →
  wf (Lightbox.open data w).
Proof.
  intros Hwf Harr. unfold Lightbox.open.
  destruct (detail_wallpapers data) as [arr|]; [|done].
  destruct (Harr arr eq_refl) as [Hlt Hne].
  repeat case_match; try done.
  eapply wf_core; [apply core_set_page|].
  eapply wf_core; [apply core_loadImage|].
  apply wf_set_lightbox; [|done..].
  eapply wf_core; [apply core_set_page|].
  by apply wf_set_lightbox.
Qed.

Lemma wf_close w : wf w → wf (Lightbox.close w).
Proof.
  intros Hwf. unfold Lightbox.close. case_match; [done|].
  eapply wf_core; [apply core_set_page|].
  apply wf_set_lightbox; [|apply Hwf..].
  by eapply wf_core; [apply core_set_page|].
Qed.

Lemma wf_prev w : wf w → wf (Lightbox.prev w).
Proof.
  intros Hwf. unfold Lightbox.prev. case_match; [done|].
  eapply wf_core; [apply core_loadImage|].
  apply wf_set_lightbox; [done|apply Hwf..].
Qed.

Lemma wf_next w : wf w → wf (Lightbox.next w).
Proof.
  intros Hwf. unfold Lightbox.next. case_match; [done|].
  eapply wf_core; [apply core_loadImage|].
  apply wf_set_lightbox; [done|apply Hwf..].
Qed.

Lemma wf_handleKeyboard key w : wf w → wf (Lightbox.handleKeyboard key w).
Proof.
  intros Hwf. unfold Lightbox.handleKeyboard.
  repeat case_match; auto using wf_close, wf_prev, wf_next.
Qed.

Lemma wf_openLightbox index type w : wf w → wf (Gallery.openLightbox index type w).
Proof.
  intros Hwf. unfold Gallery.openLightbox.
  case_match; [by apply (wf_core w)|].
  apply wf_open; [done|]. simpl. intros arr [= <-].
  destruct Hwf as [[] _ _]. case_match; done.
Qed.

Lemma wf_handleKeyboardNavigation key w :
  wf w → wf (Gallery.handleKeyboardNavigation key w).
Proof.
  intros Hwf. unfold Gallery.handleKeyboardNavigation. repeat case_match; try done.
  - by eapply wf_core; [apply core_prevSlide|].
  - by eapply wf_core; [apply core_nextSlide|].
  - by apply wf_togglePlay.
Qed.

Lemma core_verticalKey key w : core (App.verticalKey key w) = core w.
Proof.
  unfold App.verticalKey. repeat case_match; try done;
    apply core_navigateVerticalGallery.
Qed.

Lemma core_iter_verticalKey n key w :
  core (Nat.iter n (App.verticalKey key) w) = core w.
Proof.
  induction n as [|n IH]; simpl; [done|]. by rewrite core_verticalKey.
Qed.

Lemma wf_keydown key w : wf w → wf (App.keydown key w).
Proof.
  intros Hwf. unfold App.keydown.
  eapply wf_core; [apply core_iter_verticalKey|].
  by apply wf_handleKeyboardNavigation, wf_handleKeyboard.
Qed.

Lemma wf_call c w : wf w → wf (App.call c w).
Proof.
  intros Hwf. destruct c; simpl.
  - by apply wf_handleFileImport.
  - by apply wf_addWallpaper.
  - apply wf_classifyWallpapers, Hwf.
  - apply wf_loadWallpapers, Hwf.
  - by eapply wf_core; [apply core_saveWallpapers|].
  - by eapply wf_core; [apply core_loadAnimationSettings|].
  - by eapply wf_core; [apply core_renderGallery|].
  - by eapply wf_core; [apply core_navigateVerticalGallery|].
  - by eapply wf_core; [apply core_prevSlide|].
  - by eapply wf_core; [apply core_nextSlide|].
  - by eapply wf_core; [apply core_timeoutFires|].
  - by eapply wf_core; [apply core_intervalFires|].
  - by apply wf_togglePlay.
  - by apply wf_startSlideShow.
  - by apply wf_stopSlideShow.
Qed.

Lemma wf_step w e : wf w → wf (App.step w e).
Proof.
  intros Hwf. destruct e; simpl;
    auto using wf_call, wf_openLightbox, wf_close, wf_prev, wf_next, wf_keydown.
Qed.

Lemma wf_run events w : wf w → wf (App.run events w).
Proof.
  revert w. induction events as [|e events IH]; intros w Hwf; simpl; [done|].
  by apply IH, wf_step.
Qed.

Lemma wf_calls cs w : wf w → wf (App.calls cs w).
Proof.
  revert w. induction cs as [|c cs IH]; intros w Hwf; simpl; [done|].
  by apply IH, wf_call.
Qed.

Lemma wf_initComponents st pg : wf (App.initComponents st pg).
Proof.
  unfold App.initComponents, Gallery.constructor.
  eapply wf_core; [apply core_hideLoading|].
  eapply wf_core; [apply core_renderGallery|].
  eapply wf_core; [apply core_loadAnimationSettings|].
  apply wf_loadWallpapers.
  split; simpl; try lia; done.
Qed.

(** Every world the page can be in. *)
Lemma wf_reachable st pg events : wf (App.run events (App.initComponents st pg)).
Proof. apply wf_run, wf_initComponents. Qed.

End Reachable.

(** ** The list pinned by the lightbox *)

Section Pinned.

Lemma pinned_of_wf w : wf w → pinned (lightbox w) (heap w !! currentWallpapers (lightbox w)) w.
Proof. intros [[] _ _]. by split. Qed.

Lemma pinned_core lb content w w' : core w' = core w → pinned lb content w → pinned lb content w'.
Proof.
  intros H [].
  pose proof (f_equal c_heap H) as Hh. pose proof (f_equal c_next_ref H) as Hn.
  pose proof (f_equal c_master H) as Hm. pose proof (f_equal c_lightbox H) as Hb.
  simpl in *. split; rewrite ?Hh, ?Hn, ?Hm, ?Hb; done.
Qed.

Lemma pinned_classifyWallpapers lb content w :
  pinned lb content w → pinned lb content (Gallery.classifyWallpapers w).
Proof.
  intros []. unfold Gallery.classifyWallpapers. split; simpl; try done; [|lia].
  by rewrite !lookup_insert_ne by lia.
Qed.

Lemma pinned_push lb content x w :
  pinned lb content w → pinned lb content (push (wallpapers (gallery w)) x w).
Proof.
  intros []. split; simpl; try done. by rewrite lookup_insert_ne.
Qed.

Lemma pinned_loadWallpapers lb content w :
  pinned lb content w → pinned lb content (Gallery.loadWallpapers w).
Proof.
  intros Hp. unfold Gallery.loadWallpapers, UtilsIO.getFromJSON.
  pose proof (core_getFromStorage (Utils.json_key "wallpapers.json") w) as H.
  destruct (UtilsIO.getFromStorage _ w) as [saved w1]; simpl in H.
  apply (pinned_core _ _ w w1) in Hp; [|done].
  apply pinned_classifyWallpapers. destruct Hp.
  split; simpl; try done; try lia. by rewrite lookup_insert_ne by lia.
Qed.

Lemma pinned_addWallpaper lb content file w :
  pinned lb content w → pinned lb content (exec (Gallery.addWallpaper file) w).
Proof.
  intros Hp. unfold exec. destruct (file_image file) as [img|] eqn:Himg.
  - rewrite (addWallpaper_ok _ img) by done. unfold added, snd.
    apply pinned_classifyWallpapers.
    apply (pinned_push _ _ _ (set_clock S (set_clock S w))).
    by apply (pinned_core _ _ w).
  - rewrite addWallpaper_fail by done. by apply (pinned_core _ _ w).
Qed.

Lemma pinned_loop lb content files w :
  pinned lb content w → pinned lb content (for_of files import_one w).2.
Proof.
  revert w. induction files as [|file files IH]; intros w Hp; simpl; [done|].
  unfold bind at 1, import_one at 1.
  destruct (Utils.isImage file).
  - pose proof (pinned_addWallpaper _ _ file w Hp) as Hp1. unfold exec in Hp1.
    unfold bind at 1. destruct (Gallery.addWallpaper file w) as [[wp|e] w1]; simpl in *.
    + by apply IH.
    + done.
  - simpl. by apply IH.
Qed.

Lemma pinned_handleFileImport lb content files w :
  pinned lb content w → pinned lb content (exec (Gallery.handleFileImport files) w).
Proof.
  intros Hp. destruct files as [|file files]; [done|].
  rewrite handleFileImport_unfold by done.
  assert (pinned lb content (UtilsIO.showLoading w)) as Hp0
    by (by apply (pinned_core _ _ w)).
  pose proof (pinned_loop _ _ (file :: files) _ Hp0) as Hp1.
  destruct (for_of (file :: files) import_one (UtilsIO.showLoading w)) as [[[]|e] w1];
    simpl in Hp1.
  - by eapply pinned_core; [apply core_after_batch|].
  - by eapply pinned_core; [apply core_after_throw|].
Qed.

Lemma pinned_startSlideShow lb content w :
  pinned lb content w → pinned lb content (Gallery.startSlideShow w).
Proof. intros []. unfold Gallery.startSlideShow. case_match; by split. Qed.

Lemma pinned_stopSlideShow lb content w :
  pinned lb content w → pinned lb content (Gallery.stopSlideShow w).
Proof. intros []. unfold Gallery.stopSlideShow. case_match; by split. Qed.

Lemma pinned_togglePlay lb content w :
  pinned lb content w → pinned lb content (Gallery.togglePlay w).
Proof.
  intros Hp. unfold Gallery.togglePlay.
  assert (pinned lb content (set_gallery (λ g, with_isPlaying (negb (isPlaying g)) g) w)) as Hp1.
  { eapply pinned_core; [|done]. by apply core_set_gallery. }
  repeat case_match; try done.
  - apply pinned_startSlideShow. by eapply pinned_core; [apply core_set_page|].
  - apply pinned_stopSlideShow. by eapply pinned_core; [apply core_set_page|].
Qed.

Lemma pinned_call lb content c w : pinned lb content w → pinned lb content (App.call c w).
Proof.
  intros Hp. destruct c; simpl.
  - by apply pinned_handleFileImport.
  - by apply pinned_addWallpaper.
  - by apply pinned_classifyWallpapers.
  - by apply pinned_loadWallpapers.
  - by eapply pinned_core; [apply core_saveWallpapers|].
  - by eapply pinned_core; [apply core_loadAnimationSettings|].
  - by eapply pinned_core; [apply core_renderGallery|].
  - by eapply pinned_core; [apply core_navigateVerticalGallery|].
  - by eapply pinned_core; [apply core_prevSlide|].
  - by eapply pinned_core; [apply core_nextSlide|].
  - by eapply pinned_core; [apply core_timeoutFires|].
  - by eapply pinned_core; [apply core_intervalFires|].
  - by apply pinned_togglePlay.
  - by apply pinned_startSlideShow.
  - by apply pinned_stopSlideShow.
Qed.

Lemma pinned_calls lb content cs w : pinned lb content w → pinned lb content (App.calls cs w).
Proof.
  revert w. induction cs as [|c cs IH]; intros w Hp; simpl; [done|].
  by apply IH, pinned_call.
Qed.

Lemma lightbox_loadImage w : lightbox (Lightbox.loadImage w) = lightbox w.
Proof. exact (core_lightbox _ _ (core_loadImage w)). Qed.

(** The cursor moves of the lightbox depend only on its own state and on
    the content of the pinned array. *)
Lemma lightbox_next_pinned lb content w w' :
  pinned lb content w → pinned lb content w' →
  lightbox (Lightbox.next w') = lightbox (Lightbox.next w).
Proof.
  intros [Hb Hc _ _] [Hb' Hc' _ _]. unfold Lightbox.next, array_length, deref.
  rewrite Hb, Hb', Hc, Hc'. case_match; [congruence|].
  rewrite !lightbox_loadImage. simpl. by rewrite Hb, Hb'.
Qed.

Lemma lightbox_prev_pinned lb content w w' :
  pinned lb content w → pinned lb content w' →
  lightbox (Lightbox.prev w') = lightbox (Lightbox.prev w).
Proof.
  intros [Hb Hc _ _] [Hb' Hc' _ _]. unfold Lightbox.prev, array_length, deref.
  rewrite Hb, Hb', Hc, Hc'. case_match; [congruence|].
  rewrite !lightbox_loadImage. simpl. by rewrite Hb, Hb'.
Qed.

Lemma getCurrentWallpapers_pinned lb content w w' :
  pinned lb content w → pinned lb content w' →
  Lightbox.getCurrentWallpapers w' = Lightbox.getCurrentWallpapers w.
Proof.
  intros [Hb Hc _ _] [Hb' Hc' _ _]. unfold Lightbox.getCurrentWallpapers, deref.
  by rewrite Hb, Hb', Hc, Hc'.
Qed.

End Pinned.

(** ** The cursors *)

Section Cursors.

Lemma gallery_transitionSlides cur nxt d w :
  gallery (Gallery.transitionSlides cur nxt d w) = gallery w.
Proof. unfold Gallery.transitionSlides. destruct cur, nxt; done. Qed.

Lemma slideCursor_nextSlide w :
  slideCursor (Gallery.nextSlide w) =
    if slideCount w =? 0 then slideCursor w
    else Z.rem (slideCursor w + 1) (slideCount w).
Proof.
  unfold slideCursor, slideCount, Gallery.nextSlide. case_match; [done|].
  unfold Gallery.updateSlideCounter. simpl. by rewrite gallery_transitionSlides.
Qed.

Lemma slideCursor_prevSlide w :
  slideCursor (Gallery.prevSlide w) =
    if slideCount w =? 0 then slideCursor w
    else Z.rem (slideCursor w - 1 + slideCount w) (slideCount w).
Proof.
  unfold slideCursor, slideCount, Gallery.prevSlide. case_match; [done|].
  unfold Gallery.updateSlideCounter. simpl. by rewrite gallery_transitionSlides.
Qed.

Lemma slideCount_core w w' : core w' = core w → slideCount w' = slideCount w.
Proof.
  intros H. unfold slideCount.
  rewrite (f_equal c_landscape H : landscapeWallpapers (gallery w') = _).
  by apply core_array_length.
Qed.

Lemma pinnedCount_core w w' : core w' = core w → pinnedCount w' = pinnedCount w.
Proof.
  intros H. unfold pinnedCount. rewrite (core_lightbox _ _ H).
  by apply core_array_length.
Qed.

Lemma slideCount_nextSlide w : slideCount (Gallery.nextSlide w) = slideCount w.
Proof. apply slideCount_core, core_nextSlide. Qed.

Lemma slideCount_prevSlide w : slideCount (Gallery.prevSlide w) = slideCount w.
Proof. apply slideCount_core, core_prevSlide. Qed.

Lemma pinnedCursor_next w :
  pinnedCursor (Lightbox.next w) =
    if pinnedCount w <=? 1 then pinnedCursor w
    else Z.rem (pinnedCursor w + 1) (pinnedCount w).
Proof.
  unfold pinnedCursor, pinnedCount, Lightbox.next. case_match; [done|].
  by rewrite lightbox_loadImage.
Qed.

Lemma pinnedCursor_prev w :
  pinnedCursor (Lightbox.prev w) =
    if pinnedCount w <=? 1 then pinnedCursor w
    else Z.rem (pinnedCursor w - 1 + pinnedCount w) (pinnedCount w).
Proof.
  unfold pinnedCursor, pinnedCount, Lightbox.prev. case_match; [done|].
  by rewrite lightbox_loadImage.
Qed.

Lemma pinnedCount_next w : pinnedCount (Lightbox.next w) = pinnedCount w.
Proof.
  unfold pinnedCount, Lightbox.next. case_match; [done|].
  rewrite lightbox_loadImage. simpl.
  by rewrite (core_array_length _ _ _ (core_loadImage _)).
Qed.

Lemma pinnedCount_prev w : pinnedCount (Lightbox.prev w) = pinnedCount w.
Proof.
  unfold pinnedCount, Lightbox.prev. case_match; [done|].
  rewrite lightbox_loadImage. simpl.
  by rewrite (core_array_length _ _ _ (core_loadImage _)).
Qed.

(** [n] times [nextSlide]. *)
Lemma slideCursor_iter_nextSlide n w :
  1 ≤ slideCount w → 0 ≤ slideCursor w < slideCount w →
  slideCount (Nat.iter n Gallery.nextSlide w) = slideCount w ∧
  slideCursor (Nat.iter n Gallery.nextSlide w) =
    (slideCursor w + Z.of_nat n) mod slideCount w.
Proof.
  intros HN Hc. induction n as [|n [IHN IHc]]; simpl.
  - split; [done|]. rewrite Z.add_0_r, Z.mod_small; done.
  - rewrite slideCount_nextSlide, slideCursor_nextSlide, IHN, IHc.
    split; [done|].
    rewrite (proj2 (Z.eqb_neq _ _)) by lia.
    pose proof (Z.mod_pos_bound (slideCursor w + Z.of_nat n) (slideCount w)).
    rewrite Z.rem_mod_nonneg by lia.
    rewrite Zplus_mod_idemp_l. f_equal. lia.
Qed.

(** [n] times [Lightbox.next]. *)
Lemma pinnedCursor_iter_next n w :
  1 ≤ pinnedCount w → 0 ≤ pinnedCursor w < pinnedCount w →
  pinnedCount (Nat.iter n Lightbox.next w) = pinnedCount w ∧
  pinnedCursor (Nat.iter n Lightbox.next w) =
    (pinnedCursor w + Z.of_nat n) mod pinnedCount w.
Proof.
  intros HN Hc. induction n as [|n [IHN IHc]]; simpl.
  - split; [done|]. rewrite Z.add_0_r, Z.mod_small; done.
  - rewrite pinnedCount_next, pinnedCursor_next, IHN, IHc.
    split; [done|].
    pose proof (Z.mod_pos_bound (pinnedCursor w + Z.of_nat n) (pinnedCount w)).
    destruct (Z.leb_spec (pinnedCount w) 1) as [Hle|Hgt].
    + assert (pinnedCount w = 1) as -> by lia. by rewrite !Z.mod_1_r.
    + rewrite Z.rem_mod_nonneg by lia.
      rewrite Zplus_mod_idemp_l. f_equal. lia.
Qed.

Lemma slideCursor_prev_next w :
  1 ≤ slideCount w → 0 ≤ slideCursor w < slideCount w →
  slideCursor (Gallery.prevSlide (Gallery.nextSlide w)) = slideCursor w.
Proof.
  intros HN Hc.
  rewrite slideCursor_prevSlide, slideCount_nextSlide, slideCursor_nextSlide.
  rewrite (proj2 (Z.eqb_neq _ _)) by lia.
  rewrite (Z.rem_mod_nonneg (slideCursor w + 1)) by lia.
  pose proof (Z.mod_pos_bound (slideCursor w + 1) (slideCount w)).
  rewrite Z.rem_mod_nonneg by lia.
  destruct (decide (slideCursor w + 1 = slideCount w)) as [Heq|Hne].
  - rewrite Heq, Z_mod_same_full.
    replace (0 - 1 + slideCount w) with (slideCursor w) by lia.
    apply Z.mod_small; lia.
  - rewrite (Z.mod_small (slideCursor w + 1)) by lia.
    replace (slideCursor w + 1 - 1 + slideCount w)
      with (slideCursor w + 1 * slideCount w) by lia.
    rewrite Z_mod_plus_full. apply Z.mod_small; lia.
Qed.

Lemma pinnedCursor_prev_next w :
  1 ≤ pinnedCount w → 0 ≤ pinnedCursor w < pinnedCount w →
  pinnedCursor (Lightbox.prev (Lightbox.next w)) = pinnedCursor w.
Proof.
  intros HN Hc.
  rewrite pinnedCursor_prev, pinnedCount_next, pinnedCursor_next.
  destruct (Z.leb_spec (pinnedCount w) 1) as [Hle|Hgt]; [done|].
  rewrite (Z.rem_mod_nonneg (pinnedCursor w + 1)) by lia.
  pose proof (Z.mod_pos_bound (pinnedCursor w + 1) (pinnedCount w)).
  rewrite Z.rem_mod_nonneg by lia.
  destruct (decide (pinnedCursor w + 1 = pinnedCount w)) as [Heq|Hne].
  - rewrite Heq, Z_mod_same_full.
    replace (0 - 1 + pinnedCount w) with (pinnedCursor w) by lia.
    apply Z.mod_small; lia.
  - rewrite (Z.mod_small (pinnedCursor w + 1)) by lia.
    replace (pinnedCursor w + 1 - 1 + pinnedCount w)
      with (pinnedCursor w + 1 * pinnedCount w) by lia.
    rewrite Z_mod_plus_full. apply Z.mod_small; lia.
Qed.

(** The lightbox does not touch the gallery or the arrays. *)
Lemma gallery_loadImage w : gallery (Lightbox.loadImage w) = gallery w.
Proof. unfold Lightbox.loadImage. repeat case_match; done. Qed.

Lemma heap_loadImage w : heap (Lightbox.loadImage w) = heap w.
Proof. exact (f_equal c_heap (core_loadImage w)). Qed.

Lemma slide_frame_next w :
  slideCount (Lightbox.next w) = slideCount w ∧
  slideCursor (Lightbox.next w) = slideCursor w.
Proof.
  unfold slideCount, slideCursor, array_length, deref, Lightbox.next.
  case_match; [done|]. by rewrite gallery_loadImage, heap_loadImage.
Qed.

Lemma slide_frame_prev w :
  slideCount (Lightbox.prev w) = slideCount w ∧
  slideCursor (Lightbox.prev w) = slideCursor w.
Proof.
  unfold slideCount, slideCursor, array_length, deref, Lightbox.prev.
  case_match; [done|]. by rewrite gallery_loadImage, heap_loadImage.
Qed.

(** The slideshow does not touch the lightbox or its list. *)
Lemma pinned_frame_core w w' :
  core w' = core w →
  pinnedCount w' = pinnedCount w ∧ pinnedCursor w' = pinnedCursor w.
Proof.
  intros H. split; [by apply pinnedCount_core|].
  unfold pinnedCursor. by rewrite (core_lightbox _ _ H).
Qed.

Lemma verticalKey_other key w :
  key ≠ "ArrowUp" → key ≠ "ArrowDown" → App.verticalKey key w = w.
Proof.
  intros H1 H2. unfold App.verticalKey.
  by rewrite !bool_decide_eq_false_2.
Qed.

Lemma iter_verticalKey_other n key w :
  key ≠ "ArrowUp" → key ≠ "ArrowDown" → Nat.iter n (App.verticalKey key) w = w.
Proof.
  intros H1 H2. induction n as [|n IH]; simpl; [done|].
  by rewrite IH, verticalKey_other.
Qed.

Lemma rem_succ_moves c n : 2 ≤ n → 0 ≤ c < n → Z.rem (c + 1) n ≠ c.
Proof.
  intros Hn Hc. rewrite Z.rem_mod_nonneg by lia.
  destruct (decide (c + 1 = n)) as [Heq|Hne].
  - rewrite Heq, Z_mod_same_full. lia.
  - rewrite Z.mod_small; lia.
Qed.

Lemma rem_pred_moves c n : 2 ≤ n → 0 ≤ c < n → Z.rem (c - 1 + n) n ≠ c.
Proof.
  intros Hn Hc. rewrite Z.rem_mod_nonneg by lia.
  destruct (decide (c = 0)) as [->|Hne].
  - rewrite Z.mod_small; lia.
  - replace (c - 1 + n) with (c - 1 + 1 * n) by lia.
    rewrite Z_mod_plus_full, Z.mod_small; lia.
Qed.

End Cursors.

(** ** Opening the lightbox *)

Section Opening.

Lemma open_empty data arr w :
  detail_wallpapers data = Some arr → array_length w arr = 0 →
  Lightbox.open data w = w.
Proof.
  intros Harr Hlen. unfold Lightbox.open. rewrite Harr, Hlen. done.
Qed.

Lemma open_result data arr w :
  detail_wallpapers data = Some arr → array_length w arr ≠ 0 →
  overlay_present w →
  let w' := Lightbox.open data w in
  lightbox w' = {| currentIndex := default 0 (detail_index data);
                   currentWallpapers := arr;
                   isOpen := true |} ∧
  heap w' = heap w ∧ gallery w' = gallery w.
Proof.
  intros Harr Hlen [Hnode Himg]. unfold Lightbox.open. rewrite Harr.
  rewrite (proj2 (Z.eqb_neq _ _)) by done.
  rewrite bool_decide_eq_true_2 by done. rewrite Himg. simpl.
  rewrite lightbox_loadImage, heap_loadImage, gallery_loadImage. done.
Qed.

Lemma openLightbox_empty index type w :
  array_length w (sublist_ref type w) = 0 →
  Gallery.openLightbox index type w = emit_effect (ConsoleWarn "没有可预览的壁纸") w.
Proof.
  intros Hlen. unfold Gallery.openLightbox. fold (sublist_ref type w).
  by rewrite Hlen.
Qed.

Lemma openLightbox_result index type w :
  array_length w (sublist_ref type w) ≠ 0 →
  overlay_present w →
  let w' := Gallery.openLightbox index type w in
  lightbox w' =
    {| currentIndex := Z.max 0 (Z.min index (array_length w (sublist_ref type w) - 1));
       currentWallpapers := sublist_ref type w;
       isOpen := true |} ∧
  heap w' = heap w ∧ gallery w' = gallery w.
Proof.
  intros Hlen Hnodes. unfold Gallery.openLightbox. fold (sublist_ref type w).
  rewrite (proj2 (Z.eqb_neq _ _)) by done.
  exact (open_result
           {| detail_index := Some (Z.max 0 (Z.min index (array_length w (sublist_ref type w) - 1)));
              detail_type := type;
              detail_wallpapers := Some (sublist_ref type w) |}
           (sublist_ref type w) w eq_refl Hlen Hnodes).
Qed.

End Opening.


(** * The claims *)

Section Claims.

(** C2. Every wallpaper record satisfies exactly one of the landscape
    predicate ([width > height]) and the portrait predicate
    ([height >= width]).  [classifyWallpapers] leaves the landscape records
    of the master list in one sub-list and the portrait records in the
    other, so that the two lengths add up to the length of the master list
    and no record is in both; and this holds of the three lists in every
    world the running page can reach. *)
Theorem classification_is_a_partition :
  (∀ wp : Wallpaper,
     (Gallery.wallpaper_isLandscape wp = true ↔ width wp > height wp) ∧
     (Gallery.wallpaper_isPortrait wp = true ↔ height wp >= width wp) ∧
     Gallery.wallpaper_isPortrait wp = negb (Gallery.wallpaper_isLandscape wp)) ∧
  (∀ w : World,
     let w' := Gallery.classifyWallpapers w in
     landscape w' = List.filter Gallery.wallpaper_isLandscape (master w) ∧
     portrait w' = List.filter Gallery.wallpaper_isPortrait (master w) ∧
     (length (landscape w') + length (portrait w'))%nat = length (master w) ∧
     ∀ wp, ¬ (wp ∈ landscape w' ∧ wp ∈ portrait w')) ∧
  (∀ st pg events,
     let w := App.run events (App.initComponents st pg) in
     (length (landscape w) + length (portrait w))%nat = length (master w) ∧
     landscape w ++ portrait w ≡ₚ master w ∧
     ∀ wp, ¬ (wp ∈ landscape w ∧ wp ∈ portrait w)).
Proof.
  split; [|split].
  - intros wp. split; [apply isLandscape_spec|].
    split; [apply isPortrait_spec|apply wallpaper_isPortrait_negb].
  - intros w w'. destruct (classifyWallpapers_sublists w) as [Hl Hp].
    split; [done|]. split; [done|]. fold w' in Hl, Hp. rewrite Hl, Hp. split.
    + apply filter_partition_length, wallpaper_isPortrait_negb.
    + intros wp [H1 H2].
      eapply filter_disjoint; [apply wallpaper_isPortrait_negb|done..].
  - intros st pg events w.
    destruct (wf_reachable st pg events) as [_ Hl Hp]. fold w in Hl, Hp.
    rewrite Hl, Hp. split; [|split].
    + apply filter_partition_length, wallpaper_isPortrait_negb.
    + apply filter_partition_perm, wallpaper_isPortrait_negb.
    + intros wp [H1 H2].
      eapply filter_disjoint; [apply wallpaper_isPortrait_negb|done..].
Qed.

(** C9, as the claim reads: a record of width 5 and height 0 has a zero
    dimension, and classification places it in the landscape sub-list, not
    in the portrait one. *)
Lemma zero_height_record_is_landscape :
  let w := Gallery.classifyWallpapers (Sample.started [Sample.flat]) in
  (width Sample.flat <= 0 ∨ height Sample.flat <= 0) ∧
  master w = [Sample.flat] ∧
  landscape w = [Sample.flat] ∧
  portrait w = [].
Proof. vm_compute. split; [right; discriminate|done]. Qed.

(** C9, amended.  A record whose width or height is zero or negative goes
    through the same two predicates as any other: classification places it
    in the portrait sub-list, and not in the landscape one, when
    [height >= width], and in the landscape sub-list, and not in the
    portrait one, when [width > height]. *)
Theorem malformed_dimensions_classified (w : World) (wp : Wallpaper) :
  width wp <= 0 ∨ height wp <= 0 →
  wp ∈ master w →
  let w' := Gallery.classifyWallpapers w in
  (height wp >= width wp → wp ∈ portrait w' ∧ wp ∉ landscape w') ∧
  (width wp > height wp → wp ∈ landscape w' ∧ wp ∉ portrait w').
Proof.
  intros _ Hin w'. destruct (classifyWallpapers_sublists w) as [Hl Hp].
  fold w' in Hl, Hp. rewrite Hl, Hp.
  rewrite !list_elem_of_In, !filter_In, <- !list_elem_of_In.
  unfold Gallery.wallpaper_isLandscape, Gallery.wallpaper_isPortrait.
  rewrite isLandscape_spec, isPortrait_spec. split; intros ?; split; try done; lia.
Qed.

Lemma malformed_dimensions_classified_witness :
  let w' := Gallery.classifyWallpapers (Sample.started [Sample.flat; Sample.wp "dot" 0 0]) in
  (Sample.flat ∈ landscape w' ∧ Sample.flat ∉ portrait w') ∧
  (Sample.wp "dot" 0 0 ∈ portrait w' ∧ Sample.wp "dot" 0 0 ∉ landscape w').
Proof.
  split.
  - apply (malformed_dimensions_classified
             (Sample.started [Sample.flat; Sample.wp "dot" 0 0]) Sample.flat).
    + right. vm_compute. discriminate.
    + vm_compute. apply list_elem_of_here.
    + vm_compute. reflexivity.
  - apply (malformed_dimensions_classified
             (Sample.started [Sample.flat; Sample.wp "dot" 0 0]) (Sample.wp "dot" 0 0)).
    + left. vm_compute. discriminate.
    + vm_compute. apply list_elem_of_further, list_elem_of_here.
    + vm_compute. discriminate.
Defined.

(** C8. Stopping the slideshow twice leaves the world that stopping it once
    leaves.  After a stop the gallery holds no interval handle and the
    handle it held is no longer live.  In every world the running page can
    reach there is at most one live timer, the one whose handle the gallery
    holds, and none after a stop. *)
Theorem stopSlideShow_idempotent :
  (∀ w : World,
     Gallery.stopSlideShow (Gallery.stopSlideShow w) = Gallery.stopSlideShow w) ∧
  (∀ w : World, slideInterval (gallery (Gallery.stopSlideShow w)) = None) ∧
  (∀ (w : World) (h : positive),
     slideInterval (gallery w) = Some h → h ∉ timers (Gallery.stopSlideShow w)) ∧
  (∀ st pg events,
     let w := App.run events (App.initComponents st pg) in
     (base.size (timers w) ≤ 1)%nat ∧
     (∀ h, h ∈ timers w → slideInterval (gallery w) = Some h) ∧
     timers (Gallery.stopSlideShow w) = ∅).
Proof.
  split; [|split; [|split]].
  - intros w. unfold Gallery.stopSlideShow at 1.
    destruct (slideInterval (gallery (Gallery.stopSlideShow w))) eqn:Hi; [|done].
    unfold Gallery.stopSlideShow in Hi.
    destruct (slideInterval (gallery w)) eqn:Hi'; simpl in Hi; congruence.
  - intros w. unfold Gallery.stopSlideShow.
    by destruct (slideInterval (gallery w)) eqn:Hi.
  - intros w h Hi. unfold Gallery.stopSlideShow. rewrite Hi. simpl.
    rewrite elem_of_difference, elem_of_singleton. tauto.
  - intros st pg events w.
    pose proof (wf_reachable st pg events) as Hwf. fold w in Hwf.
    pose proof (ok_timers _ (wf_refs _ (wf_stopSlideShow w Hwf))) as Hstop.
    pose proof (ok_timers _ (wf_refs _ Hwf)) as Ht.
    split; [|split].
    + rewrite Ht. destruct (slideInterval (gallery w)).
      * by rewrite size_singleton.
      * rewrite size_empty. lia.
    + intros h. rewrite Ht. destruct (slideInterval (gallery w)).
      * rewrite elem_of_singleton. by intros ->.
      * by rewrite elem_of_empty.
    + rewrite Hstop. unfold Gallery.stopSlideShow.
      destruct (slideInterval (gallery w)) eqn:Hi; simpl; [done|by rewrite Hi].
Qed.

(** C7. With nothing saved under the settings key, a new [AnimationManager]
    holds [slide] for both categories; selecting [zoom] for [landscape],
    saving, and constructing the manager again gives
    [{landscape: 'zoom', portrait: 'slide'}], in a browser whose storage
    takes the write and gives it back. *)
Theorem animation_settings_round_trip (w : World) :
  items (storage w) !! Utils.json_key "animation_settings.json" = None →
  setItem_ok (storage w) = true →
  getItem_ok (storage w) = true →
  let loaded := (AnimationManager.constructor w).1 in
  let w1 := (AnimationManager.constructor w).2 in
  let selected := AnimationManager.selectAnimation "landscape" "zoom" loaded in
  let w2 := AnimationManager.saveSettings selected w1 in
  loaded = {[ "landscape" := "slide"; "portrait" := "slide" ]} ∧
  (AnimationManager.constructor w2).1 = {[ "landscape" := "zoom"; "portrait" := "slide" ]}.
Proof.
  intros Hnone Hset Hget.
  unfold AnimationManager.constructor, AnimationManager.loadSettings,
    AnimationManager.saveSettings, UtilsIO.getFromJSON, UtilsIO.saveToJSON,
    UtilsIO.getFromStorage, UtilsIO.saveToStorage.
  rewrite Hget, Hnone. simpl. rewrite Hset. simpl. rewrite Hget.
  split; [done|].
  rewrite lookup_insert_eq. simpl.
  unfold AnimationManager.selectAnimation, AnimationManager.defaultSettings.
  rewrite insert_insert_eq. apply map_eq. intros k. rewrite lookup_union.
  destruct (decide (k = "landscape")) as [->|].
  - by rewrite !lookup_insert_eq.
  - rewrite !lookup_insert_ne by done. by destruct (_ !! k).
Qed.

Lemma animation_settings_round_trip_witness :
  (AnimationManager.constructor Sample.fresh).1
    = {[ "landscape" := "slide"; "portrait" := "slide" ]} ∧
  (AnimationManager.constructor
     (AnimationManager.saveSettings
        (AnimationManager.selectAnimation "landscape" "zoom"
           (AnimationManager.constructor Sample.fresh).1)
        (AnimationManager.constructor Sample.fresh).2)).1
    = {[ "landscape" := "zoom"; "portrait" := "slide" ]}.
Proof.
  apply (animation_settings_round_trip Sample.fresh); vm_compute; reflexivity.
Defined.

(** C6. With [N >= 1] slides and the cursor [c] in [[0, N)], [N] times
    [nextSlide] brings the cursor back to [c], and so does [prevSlide] after
    [nextSlide]; the same holds of [next] and [prev] of the lightbox over
    its pinned list. *)
Theorem cursors_are_cyclic (w : World) :
  (1 ≤ slideCount w → 0 ≤ slideCursor w < slideCount w →
   slideCursor (Nat.iter (Z.to_nat (slideCount w)) Gallery.nextSlide w) = slideCursor w ∧
   slideCursor (Gallery.prevSlide (Gallery.nextSlide w)) = slideCursor w) ∧
  (1 ≤ pinnedCount w → 0 ≤ pinnedCursor w < pinnedCount w →
   pinnedCursor (Nat.iter (Z.to_nat (pinnedCount w)) Lightbox.next w) = pinnedCursor w ∧
   pinnedCursor (Lightbox.prev (Lightbox.next w)) = pinnedCursor w).
Proof.
  split; intros HN Hc.
  - split; [|by apply slideCursor_prev_next].
    destruct (slideCursor_iter_nextSlide (Z.to_nat (slideCount w)) w HN Hc) as [_ ->].
    rewrite Z2Nat.id by lia.
    replace (slideCursor w + slideCount w)
      with (slideCursor w + 1 * slideCount w) by lia.
    rewrite Z_mod_plus_full. apply Z.mod_small; lia.
  - split; [|by apply pinnedCursor_prev_next].
    destruct (pinnedCursor_iter_next (Z.to_nat (pinnedCount w)) w HN Hc) as [_ ->].
    rewrite Z2Nat.id by lia.
    replace (pinnedCursor w + pinnedCount w)
      with (pinnedCursor w + 1 * pinnedCount w) by lia.
    rewrite Z_mod_plus_full. apply Z.mod_small; lia.
Qed.

Lemma cursors_are_cyclic_witness :
  (slideCount Sample.opened = 2 ∧ slideCursor Sample.opened = 0 ∧
   slideCursor (Nat.iter 2 Gallery.nextSlide Sample.opened) = 0 ∧
   slideCursor (Gallery.prevSlide (Gallery.nextSlide Sample.opened)) = 0) ∧
  (pinnedCount Sample.opened = 2 ∧ pinnedCursor Sample.opened = 0 ∧
   pinnedCursor (Nat.iter 2 Lightbox.next Sample.opened) = 0 ∧
   pinnedCursor (Lightbox.prev (Lightbox.next Sample.opened)) = 0).
Proof.
  split.
  - split; [vm_compute; reflexivity|]. split; [vm_compute; reflexivity|].
    apply (proj1 (cursors_are_cyclic Sample.opened)); by vm_compute.
  - split; [vm_compute; reflexivity|]. split; [vm_compute; reflexivity|].
    apply (proj2 (cursors_are_cyclic Sample.opened)); by vm_compute.
Defined.

(** C10. While the lightbox is open, an [ArrowRight] keydown runs both
    [Lightbox.next] and [Gallery.nextSlide], and an [ArrowLeft] keydown both
    [Lightbox.prev] and [Gallery.prevSlide]: the gallery's handler does not
    look at the lightbox.  Each cursor takes its step over its own list, and
    with two entries or more in each list both cursors change. *)
Theorem arrow_keys_move_both_cursors (w : World) :
  isOpen (lightbox w) = true →
  App.keydown "ArrowRight" w = Gallery.nextSlide (Lightbox.next w) ∧
  App.keydown "ArrowLeft" w = Gallery.prevSlide (Lightbox.prev w) ∧
  slideCursor (App.keydown "ArrowRight" w) = slideCursor (Gallery.nextSlide w) ∧
  pinnedCursor (App.keydown "ArrowRight" w) = pinnedCursor (Lightbox.next w) ∧
  slideCursor (App.keydown "ArrowLeft" w) = slideCursor (Gallery.prevSlide w) ∧
  pinnedCursor (App.keydown "ArrowLeft" w) = pinnedCursor (Lightbox.prev w) ∧
  (2 ≤ slideCount w → 0 ≤ slideCursor w < slideCount w →
   2 ≤ pinnedCount w → 0 ≤ pinnedCursor w < pinnedCount w →
   slideCursor (App.keydown "ArrowRight" w) ≠ slideCursor w ∧
   pinnedCursor (App.keydown "ArrowRight" w) ≠ pinnedCursor w ∧
   slideCursor (App.keydown "ArrowLeft" w) ≠ slideCursor w ∧
   pinnedCursor (App.keydown "ArrowLeft" w) ≠ pinnedCursor w).
Proof.
  intros Hopen.
  assert (App.keydown "ArrowRight" w = Gallery.nextSlide (Lightbox.next w)) as HR.
  { unfold App.keydown. rewrite iter_verticalKey_other by done.
    unfold Lightbox.handleKeyboard. by rewrite Hopen. }
  assert (App.keydown "ArrowLeft" w = Gallery.prevSlide (Lightbox.prev w)) as HL.
  { unfold App.keydown. rewrite iter_verticalKey_other by done.
    unfold Lightbox.handleKeyboard. by rewrite Hopen. }
  destruct (slide_frame_next w) as [HNn Hcn], (slide_frame_prev w) as [HNp Hcp].
  destruct (pinned_frame_core _ _ (core_nextSlide (Lightbox.next w))) as [_ HiR].
  destruct (pinned_frame_core _ _ (core_prevSlide (Lightbox.prev w))) as [_ HiL].
  assert (slideCursor (App.keydown "ArrowRight" w) = slideCursor (Gallery.nextSlide w)) as HsR.
  { by rewrite HR, !slideCursor_nextSlide, HNn, Hcn. }
  assert (slideCursor (App.keydown "ArrowLeft" w) = slideCursor (Gallery.prevSlide w)) as HsL.
  { by rewrite HL, !slideCursor_prevSlide, HNp, Hcp. }
  assert (pinnedCursor (App.keydown "ArrowRight" w) = pinnedCursor (Lightbox.next w)) as HpR.
  { by rewrite HR, HiR. }
  assert (pinnedCursor (App.keydown "ArrowLeft" w) = pinnedCursor (Lightbox.prev w)) as HpL.
  { by rewrite HL, HiL. }
  split_and!; try done.
  intros HN Hc HM Hi.
  rewrite HsR, HsL, HpR, HpL.
  rewrite slideCursor_nextSlide, slideCursor_prevSlide, pinnedCursor_next, pinnedCursor_prev.
  rewrite (proj2 (Z.eqb_neq (slideCount w) 0)) by lia.
  rewrite (proj2 (Z.leb_gt (pinnedCount w) 1)) by lia.
  split_and!; auto using rem_succ_moves, rem_pred_moves.
Qed.

Lemma arrow_keys_move_both_cursors_witness :
  isOpen (lightbox Sample.opened) = true ∧
  slideCursor Sample.opened = 0 ∧ pinnedCursor Sample.opened = 0 ∧
  slideCursor (App.keydown "ArrowRight" Sample.opened) = 1 ∧
  pinnedCursor (App.keydown "ArrowRight" Sample.opened) = 1 ∧
  App.keydown "ArrowRight" Sample.opened
    = Gallery.nextSlide (Lightbox.next Sample.opened).
Proof.
  assert (isOpen (lightbox Sample.opened) = true) as Hopen by (vm_compute; reflexivity).
  destruct (arrow_keys_move_both_cursors Sample.opened Hopen) as (HR & _).
  split_and!; [exact Hopen|vm_compute; reflexivity..|exact HR].
Defined.

(** C3. In any world the running page can reach, open the lightbox through
    [openLightbox]; whatever the gallery does afterwards (imports, adds,
    reclassifies, reloads, renders, navigates), the state of the lightbox
    and the list it browses stay what they were right after the opening,
    and [next] and [prev] step as they would have stepped then.  When the
    sub-list was not empty and the overlay is on the page, that list is the
    sub-list as it was when the lightbox opened. *)
Theorem snapshot_stays_pinned st pg events (index : Z) (type : string)
    (cs : list App.GalleryCall) :
  let w0 := App.run events (App.initComponents st pg) in
  let w1 := Gallery.openLightbox index type w0 in
  let w2 := App.calls cs w1 in
  lightbox w2 = lightbox w1 ∧
  Lightbox.getCurrentWallpapers w2 = Lightbox.getCurrentWallpapers w1 ∧
  lightbox (Lightbox.next w2) = lightbox (Lightbox.next w1) ∧
  lightbox (Lightbox.prev w2) = lightbox (Lightbox.prev w1) ∧
  (array_length w0 (sublist_ref type w0) ≠ 0 → overlay_present w0 →
   isOpen (lightbox w2) = true ∧
   Lightbox.getCurrentWallpapers w2 = deref w0 (sublist_ref type w0)).
Proof.
  intros w0 w1 w2.
  assert (wf w1) as Hwf1 by apply wf_openLightbox, wf_reachable.
  pose proof (pinned_of_wf w1 Hwf1) as Hp1.
  pose proof (pinned_calls _ _ cs w1 Hp1) as Hp2. fold w2 in Hp2.
  pose proof (getCurrentWallpapers_pinned _ _ _ _ Hp1 Hp2) as Hlist.
  split_and!.
  - apply Hp2.
  - done.
  - by eapply lightbox_next_pinned.
  - by eapply lightbox_prev_pinned.
  - intros Hlen Hnodes.
    destruct (openLightbox_result index type w0 Hlen Hnodes) as (Hlb & Hheap & _).
    fold w1 in Hlb, Hheap.
    rewrite (pinned_lightbox _ _ _ Hp2), Hlist.
    unfold Lightbox.getCurrentWallpapers, deref. by rewrite Hlb, Hheap.
Qed.

(** An instance: the lightbox opened on the two landscape records of
    [Sample.four] still browses those two after a third landscape record
    was imported, while the gallery's own sub-list has three. *)
Example snapshot_after_import :
  let w2 := App.call (App.HandleFileImport [Sample.r1; Sample.r3]) Sample.opened in
  name <$> Lightbox.getCurrentWallpapers w2 = ["a"; "c"] ∧
  name <$> landscape w2 = ["a"; "c"; "one.jpg"] ∧
  pinnedCursor (Lightbox.next (Lightbox.next w2)) = 0.
Proof. by vm_compute. Qed.

(** C1, as the claim reads: the three files are accepted and the second
    does not decode; after the import the master list holds the record of
    the first file only (the third was never attempted), and neither a
    persist nor a render followed. *)
Lemma batch_stops_at_decode_failure :
  let w := Sample.fresh in
  let w' := exec (Gallery.handleFileImport [Sample.r1; Sample.r2; Sample.r3]) w in
  Utils.isImage Sample.r1 = true ∧ Utils.isImage Sample.r2 = true ∧
  Utils.isImage Sample.r3 = true ∧
  file_image Sample.r2 = None ∧
  is_Some (file_image Sample.r1) ∧ is_Some (file_image Sample.r3) ∧
  name <$> master w' = ["one.jpg"] ∧
  ¬ ("three.webp" ∈ name <$> master w') ∧
  persists w' = persists w ∧
  renders w' = renders w.
Proof.
  intros w w'.
  assert (name <$> master w' = ["one.jpg"]) as Hnames by (vm_compute; reflexivity).
  split_and!; try (vm_compute; reflexivity); try (by eexists); try done.
  rewrite Hnames. intros Hin. apply list_elem_of_In in Hin. simpl in Hin.
  intuition discriminate.
Qed.

(** C1, amended.  In any world the running page can reach: a batch in which
    an accepted file does not decode adds the accepted files before it and
    nothing after, and is followed by no persist and no render; a non-empty
    batch whose accepted files all decode adds every one of them, in order,
    and is followed by exactly one persist and one render. *)
Theorem import_batch_outcome st pg events :
  let w := App.run events (App.initComponents st pg) in
  (∀ pre bad post,
     Forall decodes pre → Utils.isImage bad = true → file_image bad = None →
     let w' := exec (Gallery.handleFileImport (pre ++ bad :: post)) w in
     name <$> master w' = (name <$> master w) ++ imported_names pre ∧
     persists w' = persists w ∧
     renders w' = renders w) ∧
  (∀ files,
     files ≠ [] → Forall decodes files →
     let w' := exec (Gallery.handleFileImport files) w in
     name <$> master w' = (name <$> master w) ++ imported_names files ∧
     persists w' = S (persists w) ∧
     renders w' = S (renders w)).
Proof.
  intros w. pose proof (wf_reachable st pg events) as Hwf. fold w in Hwf. split.
  - intros pre bad post Hpre Himg Hnone.
    destruct (handleFileImport_fails pre bad post w Hwf Hpre Himg Hnone)
      as (_ & Hm & Hp & Hr & _).
    done.
  - intros files Hne Hall.
    destruct (handleFileImport_decodes files w Hwf Hne Hall) as (_ & Hm & Hp & Hr & _).
    done.
Qed.

Lemma import_batch_outcome_witness :
  (let w' := exec (Gallery.handleFileImport ([Sample.r1] ++ Sample.r2 :: [Sample.r3]))
               Sample.fresh in
   name <$> master w' = (name <$> master Sample.fresh) ++ imported_names [Sample.r1] ∧
   persists w' = persists Sample.fresh ∧
   renders w' = renders Sample.fresh) ∧
  (let w' := exec (Gallery.handleFileImport [Sample.r1; Sample.r3]) Sample.fresh in
   name <$> master w' = (name <$> master Sample.fresh) ++ imported_names [Sample.r1; Sample.r3] ∧
   persists w' = S (persists Sample.fresh) ∧
   renders w' = S (renders Sample.fresh)).
Proof.
  split.
  - apply (proj1 (import_batch_outcome Sample.emptyStorage Sample.fullPage [])).
    + repeat constructor. intros _. vm_compute. eauto.
    + vm_compute. reflexivity.
    + reflexivity.
  - apply (proj2 (import_batch_outcome Sample.emptyStorage Sample.fullPage [])).
    + discriminate.
    + repeat constructor; intros _; vm_compute; eauto.
Defined.

(** C4, as the claim reads: [Lightbox.open] called with index 5 on a list of
    two records keeps 5 as its cursor, outside [[0, 2)]; with index -1 it
    keeps -1. *)
Lemma open_keeps_an_index_out_of_range :
  let w := Sample.four in
  let arr := landscapeWallpapers (gallery w) in
  let data i := {| detail_index := Some i; detail_type := "landscape";
                   detail_wallpapers := Some arr |} in
  array_length w arr = 2 ∧
  isOpen (lightbox (Lightbox.open (data 5) w)) = true ∧
  pinnedCursor (Lightbox.open (data 5) w) = 5 ∧
  pinnedCursor (Lightbox.open (data (-1)) w) = -1 ∧
  ¬ (0 ≤ pinnedCursor (Lightbox.open (data 5) w) < array_length w arr).
Proof. vm_compute. split_and!; try done. intros [_ H]. discriminate. Qed.

(** C4, amended.  [Lightbox.open] is a no-op when the list it is given is
    empty, and when the overlay is not on the page.  For a list that is not
    empty, with the overlay on the page, it takes the index as it is given
    ([0] when none is given), pins the list and sets [isOpen].  The index is
    brought into [[0, length)] by [Gallery.openLightbox], before the
    [openLightbox] event is emitted: an opening through [openLightbox] of a
    sub-list that is not empty leaves a cursor in range, equal to [index]
    when [index] is in range; on an empty sub-list it changes nothing but
    the console. *)
Theorem open_contract (w : World) :
  (∀ data arr,
     detail_wallpapers data = Some arr → array_length w arr = 0 →
     Lightbox.open data w = w) ∧
  (∀ data, ¬ overlay_present w → Lightbox.open data w = w) ∧
  (∀ data arr,
     detail_wallpapers data = Some arr → array_length w arr ≠ 0 →
     overlay_present w →
     let w' := Lightbox.open data w in
     pinnedCursor w' = default 0 (detail_index data) ∧
     currentWallpapers (lightbox w') = arr ∧
     Lightbox.getCurrentWallpapers w' = deref w arr ∧
     isOpen (lightbox w') = true) ∧
  (∀ index type,
     array_length w (sublist_ref type w) ≠ 0 → overlay_present w →
     let w' := Gallery.openLightbox index type w in
     0 ≤ pinnedCursor w' < array_length w (sublist_ref type w) ∧
     (0 ≤ index < array_length w (sublist_ref type w) → pinnedCursor w' = index) ∧
     Lightbox.getCurrentWallpapers w' = deref w (sublist_ref type w) ∧
     isOpen (lightbox w') = true) ∧
  (∀ index type,
     array_length w (sublist_ref type w) = 0 →
     Gallery.openLightbox index type w = emit_effect (ConsoleWarn "没有可预览的壁纸") w).
Proof.
  split_and!.
  - intros data arr. apply open_empty.
  - intros data Hno. unfold Lightbox.open.
    destruct (detail_wallpapers data) as [arr|]; [|done].
    case_match; [done|].
    destruct (lightboxNode (page w)) as [cl|] eqn:Hnode; simpl.
    + destruct (lightboxImageNode (page w)) eqn:Himg; [|done].
      exfalso. apply Hno. split; [by rewrite Hnode|done].
    + done.
  - intros data arr Harr Hlen Hnodes w'.
    destruct (open_result data arr w Harr Hlen Hnodes) as (Hlb & Hheap & _).
    fold w' in Hlb, Hheap.
    unfold pinnedCursor, Lightbox.getCurrentWallpapers, deref.
    by rewrite Hlb, Hheap.
  - intros index type Hlen Hnodes w'.
    destruct (openLightbox_result index type w Hlen Hnodes) as (Hlb & Hheap & _).
    fold w' in Hlb, Hheap.
    unfold pinnedCursor, Lightbox.getCurrentWallpapers, deref.
    rewrite Hlb, Hheap. simpl.
    assert (0 ≤ array_length w (sublist_ref type w)) by apply Nat2Z.is_nonneg.
    split_and!; try done; lia.
  - intros index type. apply openLightbox_empty.
Qed.

Lemma open_contract_witness :
  let w := Sample.four in
  let w' := Gallery.openLightbox 7 "portrait" w in
  0 ≤ pinnedCursor w' < array_length w (sublist_ref "portrait" w) ∧
  (0 ≤ 7 < array_length w (sublist_ref "portrait" w) → pinnedCursor w' = 7) ∧
  Lightbox.getCurrentWallpapers w' = deref w (sublist_ref "portrait" w) ∧
  isOpen (lightbox w') = true.
Proof.
  apply (open_contract Sample.four).
  - vm_compute. discriminate.
  - split; [by eexists|reflexivity].
Defined.

(** What holds of short and empty lists: the lightbox does nothing on a
    pinned list of at most one record, the slideshow and the vertical
    gallery do nothing on an empty sub-list, and with a single slide the
    cursor of the slideshow stays where it is. *)
Lemma short_and_empty_lists (w : World) :
  (pinnedCount w ≤ 1 → Lightbox.next w = w ∧ Lightbox.prev w = w) ∧
  (slideCount w = 0 → Gallery.nextSlide w = w ∧ Gallery.prevSlide w = w) ∧
  (array_length w (portraitWallpapers (gallery w)) = 0 →
   ∀ direction, Gallery.navigateVerticalGallery direction w = w) ∧
  (slideCount w = 1 → slideCursor w = 0 →
   slideCursor (Gallery.nextSlide w) = 0 ∧ slideCursor (Gallery.prevSlide w) = 0).
Proof.
  split_and!.
  - intros Hle. unfold Lightbox.next, Lightbox.prev. fold (pinnedCount w).
    by rewrite (proj2 (Z.leb_le _ _)).
  - intros Hz. unfold Gallery.nextSlide, Gallery.prevSlide. fold (slideCount w).
    by rewrite Hz.
  - intros Hz direction. unfold Gallery.navigateVerticalGallery. by rewrite Hz.
  - intros HN Hc. rewrite slideCursor_nextSlide, slideCursor_prevSlide, HN, Hc. done.
Qed.

(** C5, at a gallery with a single landscape record.  [nextSlide] and
    [prevSlide] stop only on an empty sub-list; with one slide they run the
    transition with that slide as both the outgoing and the incoming one.
    The cursor stays at 0, but the slide loses [active] and keeps the
    animation and direction classes, and a clean-up is left pending: the
    call is not a no-op. *)
Theorem single_slide_is_not_left_alone :
  let w := Sample.single in
  slideCount w = 1 ∧ slideCursor w = 0 ∧
  classList <$> slides (page w) = [["wallpaper-slide"; "active"]] ∧
  classList <$> slides (page (Gallery.nextSlide w))
    = [["wallpaper-slide"; "animation-slide"; "prev"]] ∧
  classList <$> slides (page (Gallery.prevSlide w))
    = [["wallpaper-slide"; "animation-slide"; "next"]] ∧
  classList <$> slides (page (Gallery.timeoutFires (Gallery.nextSlide w)))
    = [["wallpaper-slide"; "animation-slide"]] ∧
  cleanupTimeouts (page w) = [] ∧
  cleanupTimeouts (page (Gallery.nextSlide w)) = [0%nat] ∧
  slideCursor (Gallery.nextSlide w) = 0 ∧
  Gallery.nextSlide w ≠ w ∧
  Gallery.prevSlide w ≠ w.
Proof.
  intros w.
  assert (cleanupTimeouts (page (Gallery.nextSlide w)) = [0%nat]) as Hn
    by (vm_compute; reflexivity).
  assert (cleanupTimeouts (page (Gallery.prevSlide w)) = [0%nat]) as Hp
    by (vm_compute; reflexivity).
  assert (cleanupTimeouts (page w) = []) as H0 by (vm_compute; reflexivity).
  assert (Gallery.nextSlide w ≠ w) as Hneq_next.
  { intros Heq. rewrite Heq in Hn. congruence. }
  assert (Gallery.prevSlide w ≠ w) as Hneq_prev.
  { intros Heq. rewrite Heq in Hp. congruence. }
  split_and!; [vm_compute; reflexivity..|exact Hneq_next|exact Hneq_prev].
Qed.

End Claims.

(** * Further properties of the code *)

(** ** File names *)

Section FileNames.

Lemma lastIndexOf_from_absent c s pos found :
  occurs c s = false → JsString.lastIndexOf_from c s pos found = found.
Proof.
  revert pos found. induction s as [|a s IH]; intros pos found Hocc; simpl in *; [done|].
  apply orb_false_iff in Hocc as [Ha Hs]. rewrite Ha. by apply IH.
Qed.

Lemma lastIndexOf_from_app c s1 s2 pos found :
  JsString.lastIndexOf_from c (s1 +:+ s2) pos found =
    JsString.lastIndexOf_from c s2 (pos + JsString.length s1)
      (JsString.lastIndexOf_from c s1 pos found).
Proof.
  revert pos found. induction s1 as [|a s1 IH]; intros pos found; simpl.
  - by rewrite Z.add_0_r.
  - rewrite IH. f_equal. lia.
Qed.

Lemma length_nonneg s : 0 ≤ JsString.length s.
Proof. induction s; simpl; lia. Qed.

Lemma length_app s1 s2 :
  JsString.length (s1 +:+ s2) = JsString.length s1 + JsString.length s2.
Proof. induction s1 as [|a s1 IH]; simpl; [done|]. rewrite IH. lia. Qed.

Lemma slice_app_length s1 s2 : JsString.slice (JsString.length s1) (s1 +:+ s2) = s2.
Proof.
  induction s1 as [|a s1 IH]; simpl.
  - by destruct s2.
  - pose proof (length_nonneg s1).
    rewrite (proj2 (Z.leb_gt _ _)) by lia.
    replace (1 + JsString.length s1 - 1) with (JsString.length s1) by lia. done.
Qed.

Lemma slice_past_end n s : JsString.length s ≤ n → JsString.slice n s = "".
Proof.
  revert n. induction s as [|a s IH]; intros n Hn; simpl in *.
  - by destruct (n <=? 0).
  - pose proof (length_nonneg s).
    rewrite (proj2 (Z.leb_gt _ _)) by lia. apply IH. lia.
Qed.

Lemma lastIndexOf_last_dot base ext :
  occurs "." ext = false →
  JsString.lastIndexOf "." (base +:+ String "." ext) = JsString.length base.
Proof.
  intros Hext. unfold JsString.lastIndexOf.
  rewrite lastIndexOf_from_app. simpl.
  by rewrite lastIndexOf_from_absent.
Qed.

Lemma slice_after_dot base a ext :
  JsString.slice (JsString.length base + 1) (base +:+ String a ext) = ext.
Proof.
  induction base as [|b base IH]; simpl.
  - by destruct ext.
  - pose proof (length_nonneg base).
    rewrite (proj2 (Z.leb_gt _ _)) by lia.
    replace (1 + JsString.length base + 1 - 1) with (JsString.length base + 1) by lia.
    done.
Qed.






Lemma append_empty_r s : s +:+ "" = s.
Proof.
  induction s as [|a s IH]; [done|].
  change (String a (s +:+ "") = String a s). by rewrite IH.
Qed.

Lemma replace_no_dot stem tail :
  occurs "." stem = false →
  JsString.replace ".json" "" (stem +:+ tail) = stem +:+ JsString.replace ".json" "" tail.
Proof.
  intros Hocc. induction stem as [|a stem IH]; [done|].
  simpl in Hocc. apply orb_false_iff in Hocc as [Ha Hs].
  change (String a stem +:+ tail) with (String a (stem +:+ tail)).
  cbn [JsString.replace JsString.startsWith]. rewrite Ascii.eqb_sym, Ha. simpl.
  by rewrite IH.
Qed.

(** X1. The extension of a name is what follows its last dot, in lower
    case, when something stands before that dot. *)
Theorem extension_follows_the_last_dot (base ext : string) :
  base ≠ "" → JsString.length base ≤ 2 ^ 32 → occurs "." ext = false →
  Utils.getFileExtension (base +:+ String "." ext) = JsString.toLowerCase ext.
Proof.
  intros Hne Hlen Hext. unfold Utils.getFileExtension.
  rewrite lastIndexOf_last_dot by done.
  assert (1 ≤ JsString.length base).
  { destruct base as [|b base]; [done|]. simpl. pose proof (length_nonneg base). lia. }
  unfold JsString.to_uint32. rewrite Z.mod_small by lia.
  replace (JsString.length base - 1 + 2) with (JsString.length base + 1) by lia.
  by rewrite slice_after_dot.
Qed.

Lemma extension_follows_the_last_dot_witness :
  Utils.getFileExtension ("holiday.2024" +:+ String "." "JPG") = JsString.toLowerCase "JPG".
Proof.
  apply extension_follows_the_last_dot; [discriminate|vm_compute; discriminate|reflexivity].
Defined.

(** X2. A name without a dot, and a name whose only dot is its first
    character, have the empty extension, so that such files are never
    accepted as images, whatever follows the dot. *)
Theorem no_extension_is_not_an_image (s : string) (file : File) :
  JsString.length s ≤ 2 ^ 32 → occurs "." s = false →
  Utils.getFileExtension s = "" ∧
  Utils.getFileExtension (String "." s) = "" ∧
  Utils.isImage (renamed s file) = false ∧
  Utils.isImage (renamed (String "." s) file) = false.
Proof.
  intros Hlen Hocc.
  assert (Utils.getFileExtension s = "") as H1.
  { unfold Utils.getFileExtension, JsString.lastIndexOf.
    rewrite lastIndexOf_from_absent by done.
    change (JsString.to_uint32 (-1 - 1) + 2) with (2 ^ 32).
    by rewrite slice_past_end. }
  assert (Utils.getFileExtension (String "." s) = "") as H2.
  { unfold Utils.getFileExtension, JsString.lastIndexOf. simpl JsString.lastIndexOf_from.
    rewrite lastIndexOf_from_absent by done.
    change (JsString.to_uint32 (0 - 1) + 2) with (2 ^ 32 + 1).
    rewrite slice_past_end; [done|]. simpl. lia. }
  unfold Utils.isImage. simpl. rewrite H1, H2. done.
Qed.

Lemma no_extension_is_not_an_image_witness :
  Utils.getFileExtension "png" = "" ∧
  Utils.getFileExtension (String "." "png") = "" ∧
  Utils.isImage (renamed "png" Sample.r1) = false ∧
  Utils.isImage (renamed (String "." "png") Sample.r1) = false.
Proof.
  apply no_extension_is_not_an_image; [vm_compute; discriminate|reflexivity].
Defined.


(** X4. For a stem without a dot, the file [stem.json] is kept under the
    key [json_stem]; and so is the file named [stem] alone: the two names
    share their entry. *)
Theorem json_key_of_a_stem (stem : string) :
  occurs "." stem = false →
  Utils.json_key (stem +:+ ".json") = "json_" +:+ stem ∧
  Utils.json_key stem = "json_" +:+ stem.
Proof.
  intros Hocc. unfold Utils.json_key. split; f_equal.
  - rewrite replace_no_dot by done. apply append_empty_r.
  - rewrite <- (append_empty_r stem) at 1. rewrite replace_no_dot by done.
    apply append_empty_r.
Qed.

Lemma json_key_of_a_stem_witness :
  Utils.json_key ("wallpapers" +:+ ".json") = "json_" +:+ "wallpapers" ∧
  Utils.json_key "wallpapers" = "json_" +:+ "wallpapers".
Proof. apply json_key_of_a_stem. reflexivity. Defined.

End FileNames.

(** ** Storage *)

Section Storage.


Lemma storage_classifyWallpapers w : storage (Gallery.classifyWallpapers w) = storage w.
Proof. done. Qed.







Lemma master_loadWallpapers w :
  master (Gallery.loadWallpapers w) = stored_wallpapers (storage w).
Proof.
  unfold Gallery.loadWallpapers, UtilsIO.getFromJSON, UtilsIO.getFromStorage,
    stored_wallpapers.
  change (Utils.json_key "wallpapers.json") with "json_wallpapers".
  destruct (getItem_ok (storage w)); cbn [alloc].
  - rewrite master_classifyWallpapers by (simpl; lia).
    unfold master, deref. simpl. rewrite lookup_insert_eq. simpl.
    by repeat case_match.
  - rewrite master_classifyWallpapers by (simpl; lia).
    unfold master, deref. simpl. by rewrite lookup_insert_eq.
Qed.

Lemma master_constructor w :
  master (Gallery.constructor w) = stored_wallpapers (storage w).
Proof.
  unfold Gallery.constructor. cbn [alloc].
  rewrite (core_master _ _ (core_renderGallery _)).
  rewrite (core_master _ _ (core_loadAnimationSettings _)).
  by rewrite master_loadWallpapers.
Qed.

Lemma master_initComponents st pg :
  master (App.initComponents st pg) = stored_wallpapers st.
Proof.
  unfold App.initComponents.
  rewrite (core_master _ _ (core_hideLoading _)).
  by rewrite master_constructor.
Qed.

Lemma gallery_flags_loadWallpapers w :
  let w' := Gallery.loadWallpapers w in
  currentSlideIndex (gallery w') = currentSlideIndex (gallery w) ∧
  isPlaying (gallery w') = isPlaying (gallery w) ∧
  slideInterval (gallery w') = slideInterval (gallery w) ∧
  animationSettings (gallery w') = animationSettings (gallery w) ∧
  timers w' = timers w ∧ lightbox w' = lightbox w ∧ page w' = page w.
Proof.
  unfold Gallery.loadWallpapers, UtilsIO.getFromJSON, UtilsIO.getFromStorage.
  by destruct (getItem_ok (storage w)).
Qed.

Lemma gallery_flags_loadAnimationSettings w :
  let w' := Gallery.loadAnimationSettings w in
  currentSlideIndex (gallery w') = currentSlideIndex (gallery w) ∧
  isPlaying (gallery w') = isPlaying (gallery w) ∧
  page w' = page w.
Proof.
  unfold Gallery.loadAnimationSettings, UtilsIO.getFromJSON, UtilsIO.getFromStorage.
  destruct (getItem_ok (storage w)); simpl; by repeat case_match.
Qed.

Lemma gallery_renderVerticalGallery w :
  gallery (Gallery.renderVerticalGallery w) = gallery w.
Proof.
  unfold Gallery.renderVerticalGallery, Gallery.initVerticalGalleryNav.
  by repeat case_match.
Qed.

(** [renderGallery] puts the cursor back on the first slide when it builds
    slides, and only then. *)
Lemma slideCursor_renderGallery w :
  slideCursor (Gallery.renderGallery w) =
    if screenInner (page w) && negb (slideCount w =? 0) then 0 else slideCursor w.
Proof.
  unfold Gallery.renderGallery, slideCursor, Gallery.updateSlideCounter. simpl.
  rewrite gallery_renderVerticalGallery.
  unfold Gallery.renderLandscapeSlider, slideCount. simpl.
  destruct (screenInner (page w)); simpl; [|done].
  unfold array_length, deref. simpl. by case_match.
Qed.

Lemma isPlaying_renderGallery w :
  isPlaying (gallery (Gallery.renderGallery w)) = isPlaying (gallery w).
Proof.
  unfold Gallery.renderGallery, Gallery.updateSlideCounter. simpl.
  rewrite gallery_renderVerticalGallery.
  unfold Gallery.renderLandscapeSlider. by repeat case_match.
Qed.

(** X5. What [saveToJSON] wrote under a file name is what [getFromJSON]
    reads back under that name, and under any other name with the same key;
    files with another key are read as before. *)
Theorem json_files_round_trip (f f' : string) (d : Stored) (w : World) :
  setItem_ok (storage w) = true → getItem_ok (storage w) = true →
  (UtilsIO.getFromJSON f' (UtilsIO.saveToJSON f d w)).1 =
    if decide (Utils.json_key f' = Utils.json_key f) then Some d
    else (UtilsIO.getFromJSON f' w).1.
Proof.
  intros Hset Hget.
  unfold UtilsIO.getFromJSON, UtilsIO.saveToJSON, UtilsIO.getFromStorage,
    UtilsIO.saveToStorage.
  simpl. rewrite Hset. simpl. rewrite Hget. simpl.
  case_decide as Hk.
  - by rewrite Hk, lookup_insert_eq.
  - by rewrite lookup_insert_ne.
Qed.

Lemma json_files_round_trip_witness :
  (UtilsIO.getFromJSON "wallpapers"
     (UtilsIO.saveToJSON "wallpapers.json" (StoredWallpapers [Sample.a]) Sample.fresh)).1
  = Some (StoredWallpapers [Sample.a]).
Proof.
  apply (json_files_round_trip "wallpapers.json" "wallpapers"); reflexivity.
Defined.

Lemma core_interval w w' :
  core w = core w' → slideInterval (gallery w) = slideInterval (gallery w').
Proof. intros H. exact (f_equal c_interval H). Qed.

Lemma core_timers w w' : core w = core w' → timers w = timers w'.
Proof. intros H. exact (f_equal c_timers H). Qed.

Lemma hideLoading_frame w :
  gallery (UtilsIO.hideLoading w) = gallery w ∧
  lightbox (UtilsIO.hideLoading w) = lightbox w ∧
  timers (UtilsIO.hideLoading w) = timers w ∧
  heap (UtilsIO.hideLoading w) = heap w.
Proof. done. Qed.

Lemma slideCursor_gallery w w' : gallery w = gallery w' → slideCursor w = slideCursor w'.
Proof. unfold slideCursor. by intros ->. Qed.

Lemma constructor_flags w :
  let w' := Gallery.constructor w in
  slideCursor w' = 0 ∧
  isPlaying (gallery w') = false ∧
  slideInterval (gallery w') = None ∧
  timers w' = timers w ∧
  lightbox w' = lightbox w.
Proof.
  unfold Gallery.constructor. cbn [alloc].
  set (w3 := set_gallery _ _).
  destruct (gallery_flags_loadWallpapers w3) as (Hc & Hplay & Hint & _ & Htim & Hlb & _).
  destruct (gallery_flags_loadAnimationSettings (Gallery.loadWallpapers w3))
    as (Hc' & Hplay' & _).
  set (w5 := Gallery.loadAnimationSettings (Gallery.loadWallpapers w3)) in *.
  assert (core (Gallery.renderGallery w5) = core (Gallery.loadWallpapers w3)) as Hcore.
  { unfold w5. by rewrite core_renderGallery, core_loadAnimationSettings. }
  split_and!.
  - rewrite slideCursor_renderGallery. case_match; [done|].
    unfold slideCursor. by rewrite Hc', Hc.
  - by rewrite isPlaying_renderGallery, Hplay', Hplay.
  - by rewrite (core_interval _ _ Hcore), Hint.
  - by rewrite (core_timers _ _ Hcore), Htim.
  - by rewrite (core_lightbox _ _ Hcore), Hlb.
Qed.









End Storage.

(** ** The catalog of animations *)

Section Catalog.

Lemma catalog_classes a :
  In a AnimationManager.animations → a.2 ∈ animationClasses ∧ a.2 = "animation-" +:+ a.1.
Proof.
  unfold AnimationManager.animations. simpl.
  intros H. repeat (destruct H as [<-|H]; [split; [set_solver|reflexivity]|]).
  done.
Qed.

Lemma getAnimationClass_some type cs id :
  cs !! type = Some id →
  AnimationManager.getAnimationClass type cs =
    default "animation-slide"
      (snd <$> List.find (λ a, bool_decide (a.1 = id)) AnimationManager.animations).
Proof. intros H. unfold AnimationManager.getAnimationClass. by rewrite H. Qed.

Lemma getAnimationClass_none type cs :
  cs !! type = None → AnimationManager.getAnimationClass type cs = "animation-slide".
Proof. intros H. unfold AnimationManager.getAnimationClass. by rewrite H. Qed.

(** X9. [getAnimationClass] always answers with one of the eight classes of
    the catalog.  For a selection from the catalog it is [animation-] and
    the selected id, the class the gallery builds for its transitions; for a
    missing category or an id that is not in the catalog it is
    [animation-slide]. *)
Theorem animation_class_is_from_the_catalog (type : string) (cs : gmap string string) :
  AnimationManager.getAnimationClass type cs ∈ animationClasses ∧
  (∀ id, id ∈ AnimationManager.animations.*1 → cs !! type = Some id →
     AnimationManager.getAnimationClass type cs = "animation-" +:+ setting cs type) ∧
  (∀ id, id ∉ AnimationManager.animations.*1 → cs !! type = Some id →
     AnimationManager.getAnimationClass type cs = "animation-slide") ∧
  (cs !! type = None → AnimationManager.getAnimationClass type cs = "animation-slide").
Proof.
  split_and!.
  - destruct (cs !! type) as [id|] eqn:Hsel.
    + rewrite (getAnimationClass_some _ _ _ Hsel).
      destruct (List.find _ _) as [a|] eqn:Hfind.
      * apply find_some in Hfind as [Hin _]. by apply catalog_classes.
      * set_solver.
    + rewrite (getAnimationClass_none _ _ Hsel). set_solver.
  - intros id Hid Hsel. rewrite (getAnimationClass_some _ _ _ Hsel).
    unfold setting. rewrite Hsel.
    destruct (List.find _ _) as [a|] eqn:Hfind.
    + apply find_some in Hfind as [Hin Ha]. apply bool_decide_eq_true_1 in Ha.
      change (a.2 = "animation-" +:+ id). rewrite <- Ha. by apply catalog_classes.
    + exfalso. apply list_elem_of_fmap in Hid as (a & -> & Ha).
      apply list_elem_of_In in Ha.
      pose proof (find_none _ _ Hfind a Ha) as Hno. cbv beta in Hno.
      by rewrite bool_decide_eq_true_2 in Hno.
  - intros id Hid Hsel. rewrite (getAnimationClass_some _ _ _ Hsel).
    destruct (List.find _ _) as [a|] eqn:Hfind; [|done].
    apply find_some in Hfind as [Hin Ha]. apply bool_decide_eq_true_1 in Ha.
    exfalso. apply Hid. rewrite <- Ha. apply list_elem_of_fmap. exists a.
    split; [done|]. by apply list_elem_of_In.
  - apply getAnimationClass_none.
Qed.

End Catalog.

(** ** The slides on the page *)

Section Slides.

Lemma contains_add c c' l :
  ClassList.contains c (ClassList.add c' l) = bool_decide (c = c') || ClassList.contains c l.
Proof.
  unfold ClassList.add, ClassList.contains.
  destruct (bool_decide (c' ∈ l)) eqn:Hin.
  - apply bool_decide_eq_true_1 in Hin.
    destruct (decide (c = c')) as [->|Hne].
    + by rewrite !bool_decide_eq_true_2.
    + by rewrite (bool_decide_eq_false_2 (c = c')).
  - apply eq_true_iff_eq.
    rewrite orb_true_iff, !bool_decide_eq_true, elem_of_app, list_elem_of_singleton.
    tauto.
Qed.

Lemma contains_remove c cs l :
  ClassList.contains c (ClassList.remove cs l) =
    ClassList.contains c l && negb (ClassList.contains c cs).
Proof.
  unfold ClassList.remove, ClassList.contains.
  apply eq_true_iff_eq. rewrite andb_true_iff, negb_true_iff, !bool_decide_eq_true.
  rewrite list_elem_of_In, filter_In, <- list_elem_of_In, negb_true_iff.
  rewrite bool_decide_eq_false. tauto.
Qed.

Lemma has_class_add c c' e :
  has_class c (add_class c' e) = bool_decide (c = c') || has_class c e.
Proof. apply contains_add. Qed.

Lemma has_class_remove c cs e :
  has_class c (remove_classes cs e) = has_class c e && negb (ClassList.contains c cs).
Proof. apply contains_remove. Qed.


Lemma forallb_imap {A} (f : nat → A → bool) (l : list A) :
  forallb (λ b, b) (imap f l) = true ↔ ∀ i x, l !! i = Some x → f i x = true.
Proof.
  revert f. induction l as [|y l IH]; intros f.
  - split; [by intros _ i x ?|done].
  - rewrite imap_cons. cbn [forallb]. rewrite andb_true_iff, IH. split.
    + intros [H0 Hrest] [|i] x Hx; simpl in Hx.
      * by injection Hx as <-.
      * by apply (Hrest i).
    + intros H. split; [by apply (H 0%nat)|].
      intros i x Hx. by apply (H (S i)).
Qed.

(** [slides_in_sync], spelled out. *)
Lemma slides_in_sync_spec w :
  slides_in_sync w = true ↔
    Z.of_nat (length (slides (page w))) = slideCount w ∧
    0 ≤ slideCursor w < slideCount w ∧
    ∀ i e, slides (page w) !! i = Some e →
           data_index e = Some (Z.of_nat i) ∧
           (has_class "active" e = true ↔ Z.of_nat i = slideCursor w).
Proof.
  unfold slides_in_sync.
  rewrite !andb_true_iff, !bool_decide_eq_true, forallb_imap.
  split.
  - intros [[Hlen Hc] Hall]. split; [done|split; [done|]].
    intros i e He. specialize (Hall i e He). unfold slide_ok in Hall.
    apply andb_true_iff in Hall as [Hidx Hact].
    apply bool_decide_eq_true_1 in Hidx. apply Bool.eqb_prop in Hact.
    split; [done|]. by rewrite Hact, bool_decide_eq_true.
  - intros (Hlen & Hc & Hall). split; [done|].
    intros i e He. destruct (Hall i e He) as [Hidx Hact]. unfold slide_ok.
    apply andb_true_iff. split; [by apply bool_decide_eq_true_2|].
    apply Bool.eqb_true_iff, eq_true_iff_eq. by rewrite Hact, bool_decide_eq_true.
Qed.



Lemma slides_updateSlideCounter w :
  slides (page (Gallery.updateSlideCounter w)) = slides (page w).
Proof. done. Qed.













Lemma slides_renderVerticalGallery w :
  slides (page (Gallery.renderVerticalGallery w)) = slides (page w).
Proof.
  unfold Gallery.renderVerticalGallery, Gallery.initVerticalGalleryNav.
  by repeat case_match.
Qed.

Lemma slides_renderGallery w :
  slides (page (Gallery.renderGallery w)) =
    if screenInner (page w)
    then if slideCount w =? 0
         then [ {| data_index := None; classList := ["wallpaper-slide"; "active"] |} ]
         else Gallery.rendered "wallpaper-slide" (landscape w)
    else slides (page w).
Proof.
  unfold Gallery.renderGallery. rewrite slides_updateSlideCounter, slides_renderVerticalGallery.
  unfold Gallery.renderLandscapeSlider, slideCount, landscape, array_length, deref. cbn.
  destruct (screenInner (page w)); [|done]. cbn. by case_match.
Qed.

Lemma slideCount_renderGallery w : slideCount (Gallery.renderGallery w) = slideCount w.
Proof. apply slideCount_core, core_renderGallery. Qed.

Lemma rendered_lookup base l i e :
  base ≠ "active" →
  Gallery.rendered base l !! i = Some e →
  data_index e = Some (Z.of_nat i) ∧ (has_class "active" e = true ↔ Z.of_nat i = 0).
Proof.
  intros Hbase. unfold Gallery.rendered. rewrite list_lookup_imap.
  destruct (l !! i) as [x|]; [|done]. intros [= <-]. split; [done|].
  unfold has_class, ClassList.contains. cbn [classList].
  rewrite bool_decide_eq_true. case_bool_decide as Hi.
  - subst i. split; [done|]. intros _. set_solver.
  - split; [|lia]. rewrite list_elem_of_singleton. congruence.
Qed.

Lemma rendered_slides_in_sync (w : World) :
  (screenInner (page w) = true → 1 ≤ slideCount w →
   slides_in_sync (Gallery.renderGallery w) = true ∧
   slideCursor (Gallery.renderGallery w) = 0).
Proof.
  intros Hscreen HN.
  assert (slideCursor (Gallery.renderGallery w) = 0) as Hcur.
  { rewrite slideCursor_renderGallery, Hscreen.
    by rewrite (proj2 (Z.eqb_neq _ _)) by lia. }
  split; [|done]. apply slides_in_sync_spec.
  rewrite slideCount_renderGallery, Hcur, slides_renderGallery, Hscreen.
  rewrite (proj2 (Z.eqb_neq _ _)) by lia.
  split; [|split; [lia|]].
  - unfold Gallery.rendered. by rewrite length_imap.
  - intros i e. by apply rendered_lookup.
Qed.

(** X11. On a page with the slide container, [renderGallery] over a
    landscape sub-list that is not empty puts the cursor on the first slide
    and the slides in step with the sub-list.  Over an empty sub-list it
    shows the one placeholder and leaves the cursor where it was; without
    the container it touches neither the slides nor the cursor. *)
Theorem render_puts_the_slides_in_sync (w : World) :
  (screenInner (page w) = true → 1 ≤ slideCount w →
   slides_in_sync (Gallery.renderGallery w) = true ∧
   slideCursor (Gallery.renderGallery w) = 0) ∧
  (screenInner (page w) = true → slideCount w = 0 →
   slides (page (Gallery.renderGallery w)) =
     [ {| data_index := None; classList := ["wallpaper-slide"; "active"] |} ] ∧
   slideCursor (Gallery.renderGallery w) = slideCursor w) ∧
  (screenInner (page w) = false →
   slides (page (Gallery.renderGallery w)) = slides (page w) ∧
   slideCursor (Gallery.renderGallery w) = slideCursor w).
Proof.
  split_and!.
  - apply rendered_slides_in_sync.
  - intros Hscreen HN.
    rewrite slides_renderGallery, slideCursor_renderGallery, Hscreen, HN. done.
  - intros Hscreen.
    rewrite slides_renderGallery, slideCursor_renderGallery, Hscreen. done.
Qed.

Lemma render_puts_the_slides_in_sync_witness :
  slides_in_sync (Gallery.renderGallery (Gallery.nextSlide Sample.four)) = true ∧
  slideCursor (Gallery.renderGallery (Gallery.nextSlide Sample.four)) = 0.
Proof.
  apply (proj1 (render_puts_the_slides_in_sync (Gallery.nextSlide Sample.four)));
    by vm_compute.
Defined.

Lemma slides_in_sync_frame w w' :
  slides (page w') = slides (page w) → gallery w' = gallery w → heap w' = heap w →
  slides_in_sync w' = slides_in_sync w.
Proof.
  intros Hs Hg Hh.
  unfold slides_in_sync, slideCount, slideCursor, array_length, deref.
  by rewrite Hs, Hg, Hh.
Qed.

Lemma page_saveWallpapers w : page (Gallery.saveWallpapers w) = page w.
Proof.
  unfold Gallery.saveWallpapers, UtilsIO.saveToJSON, UtilsIO.saveToStorage.
  cbn. by case_match.
Qed.

Lemma after_batch_in_sync w :
  screenInner (page w) = true → 1 ≤ slideCount w →
  slides_in_sync (after_batch w) = true ∧ slideCursor (after_batch w) = 0.
Proof.
  intros Hscreen HN.
  set (w1 := Gallery.saveWallpapers w).
  assert (screenInner (page w1) = true) as Hscreen1
    by (unfold w1; by rewrite page_saveWallpapers).
  assert (1 ≤ slideCount w1) as HN1.
  { unfold w1. by rewrite (slideCount_core w _ (core_saveWallpapers w)). }
  destruct (rendered_slides_in_sync w1 Hscreen1 HN1) as [Hsync Hcur].
  unfold after_batch. fold w1. split.
  - rewrite <- Hsync. by apply slides_in_sync_frame.
  - rewrite <- Hcur. by apply slideCursor_gallery.
Qed.

(** X12. In any world the running page can reach, on a page with the
    slide container: after a batch that is not empty and whose accepted
    files all decode, if there is a landscape record at all, the slideshow
    is back on its first slide and the slides are in step with the
    landscape sub-list. *)
Theorem import_restarts_the_slideshow st pg events (files : list File) :
  let w := App.run events (App.initComponents st pg) in
  let w' := exec (Gallery.handleFileImport files) w in
  files ≠ [] → Forall decodes files →
  screenInner (page w) = true → 1 ≤ slideCount w' →
  slides_in_sync w' = true ∧ slideCursor w' = 0.
Proof.
  intros w w' Hne Hall Hscreen HN. unfold w' in *. clear w'.
  pose proof (wf_reachable st pg events) as Hwf. fold w in Hwf.
  rewrite handleFileImport_unfold in * by done.
  destruct (loop_decodes files _ (wf_showLoading w Hwf) Hall)
    as (w1 & Hrun & _ & _ & _ & (Hpage & _)).
  rewrite Hrun in *.
  apply after_batch_in_sync.
  - by rewrite Hpage.
  - by rewrite <- (slideCount_core w1 _ (core_after_batch w1)).
Qed.

Lemma import_restarts_the_slideshow_witness :
  let w' := exec (Gallery.handleFileImport [Sample.r1; Sample.r3]) Sample.fresh in
  slides_in_sync w' = true ∧ slideCursor w' = 0.
Proof.
  apply (import_restarts_the_slideshow Sample.emptyStorage Sample.fullPage []).
  - discriminate.
  - repeat constructor; intros _; vm_compute; eauto.
  - reflexivity.
  - by vm_compute.
Defined.

End Slides.

(** ** The vertical gallery *)

Section Wall.










(** The classes of an item once [updateVerticalGalleryItems] has cleared it
    and put the animation on it. *)
Lemma cleared_class animation c e :
  has_class c (add_class animation
                 (remove_classes ("active" :: "prev" :: "next" :: animationClasses) e)) =
    bool_decide (c = animation) ||
    (has_class c e && negb (bool_decide (c ∈ bandClasses ++ animationClasses))).
Proof. by rewrite has_class_add, has_class_remove. Qed.

Lemma data_index_add c e : data_index (add_class c e) = data_index e.
Proof. done. Qed.

Lemma data_index_remove cs e : data_index (remove_classes cs e) = data_index e.
Proof. done. Qed.



Lemma other_class_kept t c e :
  c ∉ bandClasses ++ animationClasses → c ≠ "animation-" +:+ t →
  has_class c (add_class ("animation-" +:+ t)
                 (remove_classes ("active" :: "prev" :: "next" :: animationClasses) e)) =
    has_class c e.
Proof.
  intros Hc Hne. rewrite cleared_class.
  rewrite (bool_decide_eq_false_2 (c = _)) by done.
  rewrite (bool_decide_eq_false_2 (c ∈ _)) by done.
  by rewrite andb_true_r.
Qed.





















End Wall.

(** ** The overlay *)

Section Overlay.

Lemma lightbox_ok_frame w w' :
  lightbox w' = lightbox w →
  heap w' !! currentWallpapers (lightbox w) = heap w !! currentWallpapers (lightbox w) →
  lightbox_ok w → lightbox_ok w'.
Proof.
  intros Hb Hh. unfold lightbox_ok, pinnedCursor, pinnedCount, array_length, deref.
  by rewrite Hb, Hh.
Qed.

Lemma lightbox_ok_core w w' : core w' = core w → lightbox_ok w → lightbox_ok w'.
Proof.
  intros H. apply lightbox_ok_frame.
  - exact (f_equal c_lightbox H).
  - by rewrite (f_equal c_heap H : heap w' = heap w).
Qed.

Lemma lightbox_ok_pinned w w' :
  pinned (lightbox w) (heap w !! currentWallpapers (lightbox w)) w' →
  lightbox_ok w → lightbox_ok w'.
Proof. intros [Hb Hc _ _]. by apply lightbox_ok_frame. Qed.

Lemma lightbox_ok_call c w : wf w → lightbox_ok w → lightbox_ok (App.call c w).
Proof. intros Hwf. by apply lightbox_ok_pinned, pinned_call, pinned_of_wf. Qed.

Lemma open_absent data w : ¬ overlay_present w → Lightbox.open data w = w.
Proof.
  intros Hno. unfold Lightbox.open, overlay_present in *.
  destruct (detail_wallpapers data) as [arr|]; [|done].
  case_match; [done|].
  case_bool_decide as Hnode; [|done].
  destruct (lightboxImageNode (page w)); [|done].
  by destruct Hno.
Qed.

Lemma lightbox_ok_openLightbox index type w :
  lightbox_ok w → lightbox_ok (Gallery.openLightbox index type w).
Proof.
  intros Hok.
  destruct (decide (array_length w (sublist_ref type w) = 0)) as [Hlen|Hlen].
  - rewrite openLightbox_empty by done.
    by eapply lightbox_ok_core; [apply core_emit_effect|].
  - destruct (lightboxNode (page w)) as [cl|] eqn:Hnode;
      [destruct (lightboxImageNode (page w)) eqn:Himg|].
    + destruct (openLightbox_result index type w Hlen) as (Hb & Hh & _).
      { split; [by rewrite Hnode|done]. }
      unfold lightbox_ok, pinnedCursor, pinnedCount, array_length, deref.
      rewrite Hb, Hh. cbn [currentIndex currentWallpapers isOpen].
      fold (deref w (sublist_ref type w)). fold (array_length w (sublist_ref type w)).
      assert (0 ≤ array_length w (sublist_ref type w)) by (unfold array_length; lia).
      lia.
    + unfold Gallery.openLightbox. fold (sublist_ref type w).
      rewrite (proj2 (Z.eqb_neq _ _)) by done.
      rewrite open_absent; [done|]. intros [_ ?]. congruence.
    + unfold Gallery.openLightbox. fold (sublist_ref type w).
      rewrite (proj2 (Z.eqb_neq _ _)) by done.
      rewrite open_absent; [done|]. intros [[? ?] _]. congruence.
Qed.

Lemma close_frame w :
  pinnedCursor (Lightbox.close w) = pinnedCursor w ∧
  pinnedCount (Lightbox.close w) = pinnedCount w ∧
  isOpen (lightbox (Lightbox.close w)) = false ∧
  gallery (Lightbox.close w) = gallery w ∧
  heap (Lightbox.close w) = heap w.
Proof.
  unfold Lightbox.close, pinnedCursor, pinnedCount.
  destruct (isOpen (lightbox w)) eqn:Hopen; by cbn.
Qed.

Lemma lightbox_ok_close w : lightbox_ok w → lightbox_ok (Lightbox.close w).
Proof.
  destruct (close_frame w) as (Hc & Hn & Ho & _).
  unfold lightbox_ok. rewrite Hc, Hn, Ho. intros [? _]. by split.
Qed.

Lemma isOpen_next w : isOpen (lightbox (Lightbox.next w)) = isOpen (lightbox w).
Proof. unfold Lightbox.next. case_match; [done|]. by rewrite lightbox_loadImage. Qed.

Lemma isOpen_prev w : isOpen (lightbox (Lightbox.prev w)) = isOpen (lightbox w).
Proof. unfold Lightbox.prev. case_match; [done|]. by rewrite lightbox_loadImage. Qed.

Lemma lightbox_ok_next w : lightbox_ok w → lightbox_ok (Lightbox.next w).
Proof.
  unfold lightbox_ok. rewrite pinnedCursor_next, pinnedCount_next, isOpen_next.
  intros [Hc Ho]. split; [|done].
  destruct (Z.leb_spec (pinnedCount w) 1) as [?|Hgt]; [done|].
  pose proof (Z.rem_bound_pos (pinnedCursor w + 1) (pinnedCount w)). lia.
Qed.

Lemma lightbox_ok_prev w : lightbox_ok w → lightbox_ok (Lightbox.prev w).
Proof.
  unfold lightbox_ok. rewrite pinnedCursor_prev, pinnedCount_prev, isOpen_prev.
  intros [Hc Ho]. split; [|done].
  destruct (Z.leb_spec (pinnedCount w) 1) as [?|Hgt]; [done|].
  pose proof (Z.rem_bound_pos (pinnedCursor w - 1 + pinnedCount w) (pinnedCount w)). lia.
Qed.

Lemma lightbox_ok_handleKeyboard key w :
  lightbox_ok w → lightbox_ok (Lightbox.handleKeyboard key w).
Proof.
  intros Hok. unfold Lightbox.handleKeyboard.
  repeat case_match; auto using lightbox_ok_close, lightbox_ok_prev, lightbox_ok_next.
Qed.

Lemma lightbox_ok_keydown key w : wf w → lightbox_ok w → lightbox_ok (App.keydown key w).
Proof.
  intros Hwf Hok. unfold App.keydown.
  eapply lightbox_ok_core; [apply core_iter_verticalKey|].
  pose proof (wf_handleKeyboard key w Hwf) as Hwf1.
  pose proof (lightbox_ok_handleKeyboard key w Hok) as Hok1.
  unfold Gallery.handleKeyboardNavigation. repeat case_match; try done.
  - by eapply lightbox_ok_core; [apply core_prevSlide|].
  - by eapply lightbox_ok_core; [apply core_nextSlide|].
  - by eapply lightbox_ok_pinned; [apply pinned_togglePlay, pinned_of_wf|].
Qed.

Lemma lightbox_ok_step w e : wf w → lightbox_ok w → lightbox_ok (App.step w e).
Proof.
  intros Hwf Hok. destruct e; simpl;
    auto using lightbox_ok_call, lightbox_ok_openLightbox, lightbox_ok_close,
               lightbox_ok_prev, lightbox_ok_next, lightbox_ok_keydown.
Qed.

Lemma lightbox_ok_run events w : wf w → lightbox_ok w → lightbox_ok (App.run events w).
Proof.
  revert w. induction events as [|e events IH]; intros w Hwf Hok; simpl; [done|].
  by apply IH; [apply wf_step|apply lightbox_ok_step].
Qed.

Lemma lightbox_initComponents st pg :
  lightbox (App.initComponents st pg) =
    {| currentIndex := 0; currentWallpapers := 0%nat; isOpen := false |}.
Proof.
  unfold App.initComponents.
  destruct (hideLoading_frame (Gallery.constructor (Lightbox.constructor (App.initial st pg))))
    as (_ & Hb & _).
  destruct (constructor_flags (Lightbox.constructor (App.initial st pg)))
    as (_ & _ & _ & _ & Hlb).
  rewrite Hb, Hlb. reflexivity.
Qed.

Lemma lightbox_ok_initComponents st pg : lightbox_ok (App.initComponents st pg).
Proof.
  unfold lightbox_ok, pinnedCursor. rewrite lightbox_initComponents.
  cbn [currentIndex isOpen]. split; [|done].
  assert (0 ≤ pinnedCount (App.initComponents st pg))
    by (unfold pinnedCount, array_length; lia).
  lia.
Qed.

(** X16. In every world the page can reach, the cursor of the lightbox is
    on a record of the list it browses (or on the first place of an empty
    list), and whenever the lightbox is open there is a record under the
    cursor for [loadImage] to show. *)
Theorem open_lightbox_shows_a_record st pg events :
  let w := App.run events (App.initComponents st pg) in
  0 ≤ pinnedCursor w < Z.max 1 (pinnedCount w) ∧
  (isOpen (lightbox w) = true →
   is_Some (array_get w (currentWallpapers (lightbox w)) (pinnedCursor w))).
Proof.
  intros w.
  assert (lightbox_ok w) as [Hc Ho]
    by (apply lightbox_ok_run; [apply wf_initComponents|apply lightbox_ok_initComponents]).
  split; [done|]. intros Hopen. specialize (Ho Hopen).
  unfold array_get. fold (pinnedCursor w).
  rewrite (proj2 (Z.ltb_ge _ _)) by lia.
  apply lookup_lt_is_Some.
  unfold pinnedCount, array_length in *. lia.
Qed.

Lemma keydown_Escape w :
  isOpen (lightbox w) = true → App.keydown "Escape" w = Lightbox.close w.
Proof.
  intros Hopen. unfold App.keydown.
  assert (Lightbox.handleKeyboard "Escape" w = Lightbox.close w) as ->.
  { unfold Lightbox.handleKeyboard. by rewrite Hopen. }
  assert (Gallery.handleKeyboardNavigation "Escape" (Lightbox.close w) = Lightbox.close w)
    as -> by done.
  by apply iter_verticalKey_other.
Qed.

Lemma close_page w :
  isOpen (lightbox w) = true →
  bodyOverflow (page (Lightbox.close w)) = "" ∧
  lightboxNode (page (Lightbox.close w)) =
    ClassList.remove ["active"] <$> lightboxNode (page w) ∧
  slides (page (Lightbox.close w)) = slides (page w) ∧
  galleryItems (page (Lightbox.close w)) = galleryItems (page w) ∧
  currentWallpapers (lightbox (Lightbox.close w)) = currentWallpapers (lightbox w).
Proof. intros Hopen. unfold Lightbox.close. by rewrite Hopen. Qed.

Lemma closed_ignores w :
  isOpen (lightbox w) = false →
  Lightbox.close w = w ∧ ∀ key, Lightbox.handleKeyboard key w = w.
Proof.
  intros Hclosed. unfold Lightbox.close, Lightbox.handleKeyboard.
  by rewrite Hclosed.
Qed.

(** X17. With the lightbox open, the Escape key does what [close] does and
    nothing else: the three [keydown] listeners together leave the overlay
    closed and without its [active] class, the page scrolling again, the
    cursor and the list of the lightbox as they were, and the gallery, the
    slides and the wall untouched.  After that the lightbox ignores every
    key, and closing again changes nothing. *)
Theorem escape_closes_the_overlay (w : World) :
  let w' := App.keydown "Escape" w in
  isOpen (lightbox w) = true →
  w' = Lightbox.close w ∧
  isOpen (lightbox w') = false ∧
  bodyOverflow (page w') = "" ∧
  (∀ cl, lightboxNode (page w') = Some cl → ClassList.contains "active" cl = false) ∧
  pinnedCursor w' = pinnedCursor w ∧
  Lightbox.getCurrentWallpapers w' = Lightbox.getCurrentWallpapers w ∧
  gallery w' = gallery w ∧
  slides (page w') = slides (page w) ∧
  wallItems w' = wallItems w ∧
  (∀ key, Lightbox.handleKeyboard key w' = w') ∧
  Lightbox.close w' = w'.
Proof.
  intros w' Hopen. unfold w'. rewrite keydown_Escape by done.
  destruct (close_frame w) as (Hc & Hn & Ho & Hg & Hh).
  destruct (close_page w Hopen) as (Hbody & Hnode & Hslides & Hitems & Hlist).
  destruct (closed_ignores (Lightbox.close w) Ho) as [Hclose Hkeys].
  split_and!; try done.
  - intros cl. rewrite Hnode. destruct (lightboxNode (page w)) as [cl0|]; [|done].
    intros [= <-]. rewrite contains_remove.
    destruct (ClassList.contains "active" cl0); reflexivity.
  - unfold Lightbox.getCurrentWallpapers, deref. by rewrite Hlist, Hh.
Qed.

Lemma escape_closes_the_overlay_witness :
  App.keydown "Escape" Sample.opened = Lightbox.close Sample.opened.
Proof.
  destruct (escape_closes_the_overlay Sample.opened) as (Hclose & _).
  - reflexivity.
  - exact Hclose.
Defined.

End Overlay.

(** ** The play button *)

Section Play.

Lemma keydown_space w : App.keydown " " w = Gallery.togglePlay w.
Proof.
  unfold App.keydown.
  assert (Lightbox.handleKeyboard " " w = w) as ->.
  { unfold Lightbox.handleKeyboard. by case_match. }
  assert (Gallery.handleKeyboardNavigation " " w = Gallery.togglePlay w) as -> by done.
  by apply iter_verticalKey_other.
Qed.

(** [togglePlay] from an idle slideshow, on a page with the play button. *)
Lemma togglePlay_starts b w :
  playBtn (page w) = Some b → isPlaying (gallery w) = false →
  slideInterval (gallery w) = None →
  Gallery.togglePlay w =
    set_gallery (with_slideInterval (Some (next_timer w)))
      (set_next_timer Pos.succ
         (set_timers (λ t, {[next_timer w]} ∪ t)
            (set_page (with_playBtn (Some true))
               (set_gallery (λ g, with_isPlaying (negb (isPlaying g)) g) w)))).
Proof.
  intros Hbtn Hplay Hint. unfold Gallery.togglePlay, Gallery.startSlideShow.
  cbn [page set_gallery gallery]. rewrite Hbtn. cbn. by rewrite Hplay, Hint.
Qed.

(** [togglePlay] from a running slideshow. *)
Lemma togglePlay_stops b h w :
  playBtn (page w) = Some b → isPlaying (gallery w) = true →
  slideInterval (gallery w) = Some h →
  Gallery.togglePlay w =
    set_gallery (with_slideInterval None)
      (set_timers (λ t, t ∖ {[h]})
         (set_page (with_playBtn (Some false))
            (set_gallery (λ g, with_isPlaying (negb (isPlaying g)) g) w))).
Proof.
  intros Hbtn Hplay Hint. unfold Gallery.togglePlay, Gallery.stopSlideShow.
  cbn [page set_gallery gallery]. rewrite Hbtn. cbn. by rewrite Hplay, Hint.
Qed.

(** X18. On a page with the play button and an idle slideshow, the space
    key is [togglePlay]; one press starts exactly one timer whose ticks are
    [nextSlide], shows the pause icon and moves no slide; a second press
    clears that timer, after which its tick does nothing, and leaves the
    slideshow idle again with the play icon, the cursor where it was. *)
Theorem space_starts_and_stops_the_slideshow (w : World) :
  let w1 := App.keydown " " w in
  let w2 := App.keydown " " w1 in
  is_Some (playBtn (page w)) → isPlaying (gallery w) = false →
  slideInterval (gallery w) = None → timers w = ∅ →
  w1 = Gallery.togglePlay w ∧
  isPlaying (gallery w1) = true ∧ playBtn (page w1) = Some true ∧
  slideInterval (gallery w1) = Some (next_timer w) ∧ timers w1 = {[next_timer w]} ∧
  Gallery.intervalFires (next_timer w) w1 = Gallery.nextSlide w1 ∧
  slideCursor w1 = slideCursor w ∧ slides (page w1) = slides (page w) ∧
  isPlaying (gallery w2) = false ∧ playBtn (page w2) = Some false ∧
  slideInterval (gallery w2) = None ∧ timers w2 = ∅ ∧
  (∀ h, Gallery.intervalFires h w2 = w2) ∧
  slideCursor w2 = slideCursor w ∧ slides (page w2) = slides (page w).
Proof.
  intros w1 w2 [b Hbtn] Hplay Hint Htim.
  assert (w1 = Gallery.togglePlay w) as Hw1 by apply keydown_space.
  assert (w2 = Gallery.togglePlay w1) as Hw2 by apply keydown_space.
  rewrite (togglePlay_starts b w Hbtn Hplay Hint) in Hw1.
  assert (isPlaying (gallery w1) = true) as Hplay1 by (by rewrite Hw1; cbn; rewrite Hplay).
  assert (playBtn (page w1) = Some true) as Hbtn1 by (by rewrite Hw1).
  assert (slideInterval (gallery w1) = Some (next_timer w)) as Hint1 by (by rewrite Hw1).
  assert (timers w1 = {[next_timer w]}) as Htim1.
  { rewrite Hw1. cbn. rewrite Htim. apply union_empty_r_L. }
  rewrite (togglePlay_stops true (next_timer w) w1 Hbtn1 Hplay1 Hint1) in Hw2.
  assert (timers w2 = ∅) as Htim2.
  { rewrite Hw2. cbn. rewrite Htim1. apply difference_diag_L. }
  split_and!.
  - apply keydown_space.
  - exact Hplay1.
  - exact Hbtn1.
  - exact Hint1.
  - exact Htim1.
  - unfold Gallery.intervalFires. rewrite Htim1.
    rewrite bool_decide_eq_true_2; [reflexivity|].
    by apply elem_of_singleton.
  - by rewrite Hw1.
  - by rewrite Hw1.
  - rewrite Hw2. cbn. by rewrite Hplay1.
  - by rewrite Hw2.
  - by rewrite Hw2.
  - exact Htim2.
  - intros h. unfold Gallery.intervalFires. rewrite Htim2.
    rewrite bool_decide_eq_false_2; [reflexivity|].
    apply not_elem_of_empty.
  - rewrite Hw2. cbn. by rewrite Hw1.
  - rewrite Hw2. cbn. by rewrite Hw1.
Qed.

Lemma space_starts_and_stops_the_slideshow_witness :
  timers (App.keydown " " Sample.four) = {[next_timer Sample.four]} ∧
  timers (App.keydown " " (App.keydown " " Sample.four)) = ∅.
Proof.
  destruct (space_starts_and_stops_the_slideshow Sample.four)
    as (_ & _ & _ & _ & H1 & _ & _ & _ & _ & _ & _ & H2 & _).
  - by eexists.
  - reflexivity.
  - reflexivity.
  - reflexivity.
  - split; [exact H1|exact H2].
Defined.

End Play.

(** ** A batch that fails *)

Section BatchFailure.

Lemma failed_batch_world pre bad post w :
  wf w → Forall decodes pre →
  Utils.isImage bad = true → file_image bad = None →
  ∃ w1, exec (Gallery.handleFileImport (pre ++ bad :: post)) w = after_throw w1 ∧
        name <$> master w1 = (name <$> master w) ++ imported_names pre ∧
        page w1 = page (UtilsIO.showLoading w) ∧ storage w1 = storage w.
Proof.
  intros Hwf Hall Himg Hnone.
  rewrite handleFileImport_unfold by (by destruct pre).
  destruct (loop_fails pre bad post _ (wf_showLoading w Hwf) Hall Himg Hnone)
    as (w1 & -> & _ & Hm & _ & (Hpage & Hst & _)).
  exists w1. by split_and!.
Qed.

Lemma spinner_hidden (cl : list string) :
  ClassList.contains "active" (ClassList.remove ["active"] (ClassList.add "active" cl)) = false.
Proof.
  rewrite contains_remove.
  destruct (ClassList.contains "active" (ClassList.add "active" cl)); reflexivity.
Qed.

(** X19. A batch in which an accepted file does not decode, in any world
    the page can reach: the records of the accepted files before it are in
    the master list, but the storage, the slides, the wall and the value of
    the file input are what they were, and the spinner is hidden again; a
    page loaded from that storage has the collection saved before the
    batch. *)
Theorem failed_batch_reaches_neither_storage_nor_page st pg events
    (pre post : list File) (bad : File) (pg' : Page) :
  let w := App.run events (App.initComponents st pg) in
  let w' := exec (Gallery.handleFileImport (pre ++ bad :: post)) w in
  Forall decodes pre → Utils.isImage bad = true → file_image bad = None →
  name <$> master w' = (name <$> master w) ++ imported_names pre ∧
  storage w' = storage w ∧
  slides (page w') = slides (page w) ∧
  wallItems w' = wallItems w ∧
  fileInputValue (page w') = fileInputValue (page w) ∧
  (∀ cl, loading (page w') = Some cl → ClassList.contains "active" cl = false) ∧
  master (App.initComponents (storage w') pg') = stored_wallpapers (storage w).
Proof.
  intros w w' Hall Himg Hnone.
  destruct (failed_batch_world pre bad post w (wf_reachable st pg events) Hall Himg Hnone)
    as (w1 & Hw' & Hm & Hpage & Hst).
  fold w' in Hw'.
  assert (storage w' = storage w) as Hst' by (by rewrite Hw').
  assert (page w' = page (UtilsIO.hideLoading (UtilsIO.showLoading w))) as Hpage'.
  { rewrite Hw'. unfold after_throw, UtilsIO.hideLoading.
    cbn [page set_page emit_effect]. by rewrite Hpage. }
  split_and!.
  - by rewrite Hw', (core_master _ _ (core_after_throw w1)).
  - exact Hst'.
  - by rewrite Hpage'.
  - unfold wallItems. by rewrite Hpage'.
  - by rewrite Hpage'.
  - intros cl. rewrite Hpage'. unfold UtilsIO.hideLoading, UtilsIO.showLoading.
    cbn [page set_page loading with_loading].
    destruct (loading (page w)) as [cl0|]; [|done].
    intros [= <-]. apply spinner_hidden.
  - by rewrite master_initComponents, Hst'.
Qed.

Lemma failed_batch_reaches_neither_storage_nor_page_witness :
  let w' := exec (Gallery.handleFileImport ([Sample.r1] ++ Sample.r2 :: [Sample.r3]))
              Sample.fresh in
  name <$> master w' = (name <$> master Sample.fresh) ++ imported_names [Sample.r1] ∧
  storage w' = storage Sample.fresh ∧
  master (App.initComponents (storage w') Sample.fullPage) =
    stored_wallpapers (storage Sample.fresh).
Proof.
  destruct (failed_batch_reaches_neither_storage_nor_page
              Sample.emptyStorage Sample.fullPage [] [Sample.r1] [Sample.r3] Sample.r2
              Sample.fullPage) as (Hm & Hst & _ & _ & _ & _ & Hload).
  - repeat constructor. intros _. vm_compute. eauto.
  - vm_compute. reflexivity.
  - reflexivity.
  - split_and!; [exact Hm|exact Hst|exact Hload].
Defined.

End BatchFailure.

(** ** Debounced and throttled calls *)

Section Timing.

Context {A : Type}.

Lemma one_waiting_invoke (args : A) s :
  Debounce.one_waiting s →
  Debounce.waiting (Debounce.invoke args s) = {[Debounce.next_handle s := args]} ∧
  Debounce.one_waiting (Debounce.invoke args s).
Proof.
  intros Hone.
  assert (Debounce.clearTimeout (Debounce.timeoutId s) (Debounce.waiting s) = ∅) as Hclear.
  { apply map_empty. intros h. unfold Debounce.clearTimeout.
    destruct (Debounce.timeoutId s) as [h0|] eqn:Hid.
    - destruct (decide (h = h0)) as [->|Hne]; [apply lookup_delete_eq|].
      rewrite lookup_delete_ne by done.
      destruct (Debounce.waiting s !! h) as [a|] eqn:Hw; [|done].
      specialize (Hone h a Hw). congruence.
    - destruct (Debounce.waiting s !! h) as [a|] eqn:Hw; [|done].
      specialize (Hone h a Hw). congruence. }
  assert (Debounce.waiting (Debounce.invoke args s) = {[Debounce.next_handle s := args]})
    as Hw by (unfold Debounce.invoke; cbn; by rewrite Hclear, insert_empty).
  split; [done|].
  intros h a. rewrite Hw. intros [<- _]%lookup_singleton_Some. done.
Qed.

Lemma one_waiting_fire h (s : @Debounce.State A) :
  Debounce.one_waiting s → Debounce.one_waiting (Debounce.fire h s).
Proof.
  intros Hone. unfold Debounce.fire.
  destruct (Debounce.waiting s !! h) as [a|] eqn:Hw; [|done].
  intros h' a'. cbn. intros [_ Hw']%lookup_delete_Some. by apply (Hone h' a').
Qed.

Lemma one_waiting_run events (s : @Debounce.State A) :
  Debounce.one_waiting s → Debounce.one_waiting (Debounce.run events s).
Proof.
  revert s. induction events as [|e events IH]; intros s Hone; [done|].
  apply IH. destruct e; [by apply one_waiting_invoke|by apply one_waiting_fire].
Qed.

Lemma debounce_burst (burst : list A) (a : A) s :
  Debounce.one_waiting s →
  let s' := foldl (λ s x, Debounce.invoke x s) s (burst ++ [a]) in
  Debounce.applied s' = Debounce.applied s ∧
  ∃ h, Debounce.waiting s' = {[h := a]} ∧ Debounce.timeoutId s' = Some h.
Proof.
  revert s. induction burst as [|x burst IH]; intros s Hone.
  - cbn. split; [done|]. exists (Debounce.next_handle s).
    split; [|done]. by apply one_waiting_invoke.
  - cbn [app foldl].
    destruct (IH (Debounce.invoke x s)) as [Happ Hw]; [by apply one_waiting_invoke|].
    split; [by rewrite Happ|exact Hw].
Qed.

(** X20. A debounced function, whatever calls and timeouts came before:
    after a burst of calls with no timeout firing in between, [func] has
    not run, exactly one timeout is waiting, and when it fires [func] runs
    once, on the arguments of the last call of the burst; no other timeout
    does anything. *)
Theorem debounce_runs_the_last_call (events : list Debounce.Event) (burst : list A) (a : A) :
  let s := Debounce.run events Debounce.debounce in
  let s' := foldl (λ s x, Debounce.invoke x s) s (burst ++ [a]) in
  Debounce.applied s' = Debounce.applied s ∧
  ∃ h, Debounce.waiting s' = {[h := a]} ∧
       Debounce.applied (Debounce.fire h s') = Debounce.applied s ++ [a] ∧
       Debounce.waiting (Debounce.fire h s') = ∅ ∧
       ∀ h', h' ≠ h → Debounce.fire h' s' = s'.
Proof.
  intros s s'.
  assert (Debounce.one_waiting s) as Hone by (by apply one_waiting_run).
  destruct (debounce_burst burst a s Hone) as (Happ & h & Hw & Hid). fold s' in Happ, Hw, Hid.
  clearbody s'. split; [done|]. exists h. split_and!.
  - done.
  - unfold Debounce.fire. rewrite Hw, lookup_singleton_eq. cbn. by rewrite Happ.
  - unfold Debounce.fire. rewrite Hw, lookup_singleton_eq. cbn.
    apply delete_singleton_eq.
  - intros h' Hne. unfold Debounce.fire. by rewrite Hw, lookup_singleton_ne.
Qed.

Lemma throttle_invariant events :
  let s := @Throttle.run A events Throttle.throttle in
  Throttle.resets s = (if Throttle.inThrottle s then 1 else 0)%nat ∧
  (length (Throttle.applied s) + (if Throttle.inThrottle s then 0 else 1) ≤
     S (Throttle.fires events))%nat.
Proof.
  induction events as [|e events IH] using rev_ind; [cbn; lia|].
  unfold Throttle.run in *. rewrite foldl_app. cbn [foldl].
  unfold Throttle.fires in *. rewrite List.filter_app, List.length_app.
  cbn in IH. destruct IH as [Hr Hlen].
  set (s := foldl Throttle.step Throttle.throttle events) in *.
  destruct e as [args|]; cbn.
  - unfold Throttle.invoke. destruct (Throttle.inThrottle s) eqn:Hin.
    + rewrite Hin. lia.
    + cbn. rewrite List.length_app. cbn. lia.
  - unfold Throttle.fire. rewrite Hr.
    destruct (Throttle.inThrottle s) eqn:Hin; cbn; [lia|].
    rewrite Hin. lia.
Qed.

Lemma throttle_burst (burst : list A) (s : @Throttle.State A) :
  Throttle.inThrottle s = true →
  foldl (λ s x, Throttle.invoke x s) s burst = s.
Proof.
  intros Hin. induction burst as [|x burst IH]; [done|].
  cbn [foldl]. unfold Throttle.invoke at 2. rewrite Hin. exact IH.
Qed.

(** X21. A throttled function, whatever calls and timeouts came before:
    [func] has run at most once more than reset timeouts have fired, at
    most one reset is waiting, and of a burst of calls that starts outside
    the window only the first runs [func]. *)
Theorem throttle_runs_the_first_call (events : list Throttle.Event) (a : A) (burst : list A) :
  let s := Throttle.run events Throttle.throttle in
  let s' := foldl (λ s x, Throttle.invoke x s) s (a :: burst) in
  (length (Throttle.applied s) ≤ S (Throttle.fires events))%nat ∧
  (Throttle.resets s ≤ 1)%nat ∧
  Throttle.applied s' =
    (if Throttle.inThrottle s then Throttle.applied s else Throttle.applied s ++ [a]) ∧
  Throttle.inThrottle s' = true ∧
  Throttle.inThrottle (Throttle.fire s') = false.
Proof.
  intros s s'. destruct (throttle_invariant events) as [Hr Hlen]. fold s in Hr, Hlen.
  assert (Throttle.inThrottle (Throttle.invoke a s) = true) as Hin
    by (unfold Throttle.invoke; by destruct (Throttle.inThrottle s) eqn:Hs).
  assert (s' = Throttle.invoke a s) as Hs'
    by (unfold s'; cbn [foldl]; by apply throttle_burst).
  clearbody s'. split_and!.
  - destruct (Throttle.inThrottle s); lia.
  - rewrite Hr. destruct (Throttle.inThrottle s); lia.
  - rewrite Hs'. unfold Throttle.invoke. by destruct (Throttle.inThrottle s).
  - by rewrite Hs'.
  - rewrite Hs'. unfold Throttle.fire, Throttle.invoke.
    destruct (Throttle.inThrottle s) eqn:Hs; [|done].
    by rewrite Hr.
Qed.

End Timing.

(** ** The slide counter *)

Section Counter.






End Counter.

(** ** The image under the cursor *)

Section ImageLoads.

Lemma loadImage_requests w wp :
  lightboxImageNode (page w) = true →
  array_get w (currentWallpapers (lightbox w)) (pinnedCursor w) = Some wp →
  imageLoads (page (Lightbox.loadImage w)) = imageLoads (page w) ++ [wp] ∧
  loading (page (Lightbox.loadImage w)) = ClassList.add "active" <$> loading (page w).
Proof.
  intros Himg Hget. unfold Lightbox.loadImage. rewrite Himg. cbn [negb orb].
  unfold pinnedCursor in Hget.
  assert (array_length w (currentWallpapers (lightbox w)) ≠ 0) as Hlen.
  { unfold array_get in Hget. case_match; [done|].
    apply lookup_lt_Some in Hget. unfold array_length. lia. }
  rewrite (proj2 (Z.eqb_neq _ _)) by done. by rewrite Hget.
Qed.

Lemma move_requests (i : Z) w :
  lightboxImageNode (page w) = true → 0 ≤ i < pinnedCount w →
  let w' := Lightbox.loadImage (set_lightbox (Lightbox.with_currentIndex i) w) in
  ∃ wp, Lightbox.getCurrentWallpapers w !! Z.to_nat i = Some wp ∧
        imageLoads (page w') = imageLoads (page w) ++ [wp].
Proof.
  intros Himg Hi w'.
  destruct (lookup_lt_is_Some_2 (Lightbox.getCurrentWallpapers w) (Z.to_nat i)) as [wp Hwp].
  { unfold pinnedCount, array_length in Hi. unfold Lightbox.getCurrentWallpapers. lia. }
  exists wp. split; [done|].
  apply (loadImage_requests (set_lightbox (Lightbox.with_currentIndex i) w) wp); [done|].
  unfold array_get, pinnedCursor. cbn.
  by rewrite (proj2 (Z.ltb_ge _ _)) by lia.
Qed.

(** X23. In every world the page can reach, with the image node of the
    lightbox on the page: over a list of two records or more, [next] and
    [prev] each ask for exactly one image, the record that is under the
    cursor after the move; over a shorter list they do nothing. *)
Theorem every_move_requests_the_image_under_the_cursor st pg events :
  let w := App.run events (App.initComponents st pg) in
  lightboxImageNode (page w) = true →
  (pinnedCount w ≤ 1 → Lightbox.next w = w ∧ Lightbox.prev w = w) ∧
  (2 ≤ pinnedCount w →
   (∃ wp, Lightbox.getCurrentWallpapers w !! Z.to_nat (pinnedCursor (Lightbox.next w)) = Some wp ∧
          imageLoads (page (Lightbox.next w)) = imageLoads (page w) ++ [wp]) ∧
   (∃ wp, Lightbox.getCurrentWallpapers w !! Z.to_nat (pinnedCursor (Lightbox.prev w)) = Some wp ∧
          imageLoads (page (Lightbox.prev w)) = imageLoads (page w) ++ [wp])).
Proof.
  intros w Himg.
  assert (lightbox_ok w) as [Hc _]
    by (apply lightbox_ok_run; [apply wf_initComponents|apply lightbox_ok_initComponents]).
  split.
  - intros Hle. unfold Lightbox.next, Lightbox.prev. fold (pinnedCount w).
    by rewrite (proj2 (Z.leb_le _ _)) by done.
  - intros Hge. split.
    + rewrite pinnedCursor_next. unfold Lightbox.next.
      fold (pinnedCount w). fold (pinnedCursor w).
      rewrite (proj2 (Z.leb_gt _ _)) by lia.
      apply move_requests; [done|].
      pose proof (Z.rem_bound_pos (pinnedCursor w + 1) (pinnedCount w)). lia.
    + rewrite pinnedCursor_prev. unfold Lightbox.prev.
      fold (pinnedCount w). fold (pinnedCursor w).
      rewrite (proj2 (Z.leb_gt _ _)) by lia.
      apply move_requests; [done|].
      pose proof (Z.rem_bound_pos (pinnedCursor w - 1 + pinnedCount w) (pinnedCount w)). lia.
Qed.

Lemma every_move_requests_the_image_under_the_cursor_witness :
  let w := App.run [App.OpenLightbox 0 "landscape"]
             (App.initComponents (Sample.storageWith [Sample.a; Sample.b; Sample.c; Sample.d])
                Sample.fullPage) in
  ∃ wp, Lightbox.getCurrentWallpapers w !! Z.to_nat (pinnedCursor (Lightbox.next w)) = Some wp ∧
        imageLoads (page (Lightbox.next w)) = imageLoads (page w) ++ [wp].
Proof.
  intros w.
  destruct (every_move_requests_the_image_under_the_cursor
              (Sample.storageWith [Sample.a; Sample.b; Sample.c; Sample.d]) Sample.fullPage
              [App.OpenLightbox 0 "landscape"]) as [_ Hmove].
  - vm_compute. reflexivity.
  - destruct Hmove as [Hnext _]; [by vm_compute|]. exact Hnext.
Defined.

End ImageLoads.

(** ** The navigation links *)

Section NavLinks.

(** X24. After [updateActiveNavLink], whatever classes the links carried:
    the link that was passed is [active] and no other link is, every other
    class of every link is kept, and with [null] no link is [active]. *)
Theorem one_nav_link_is_active (activeLink : option nat) (navLinks : list Element) :
  let links' := AppNav.updateActiveNavLink activeLink navLinks in
  length links' = length navLinks ∧
  ∀ i e', links' !! i = Some e' →
    has_class "active" e' = bool_decide (activeLink = Some i) ∧
    ∃ e, navLinks !! i = Some e ∧
         ∀ c, c ≠ "active" → has_class c e' = has_class c e.
Proof.
  intros links'. unfold links', AppNav.updateActiveNavLink.
  assert (∀ e c, has_class c (remove_classes ["active"] e) =
                 has_class c e && negb (bool_decide (c = "active"))) as Hrem.
  { intros e c. rewrite has_class_remove. f_equal. f_equal.
    unfold ClassList.contains. apply bool_decide_ext.
    by rewrite list_elem_of_singleton. }
  destruct activeLink as [link|].
  - split; [by rewrite length_alter, length_fmap|].
    intros i e'. destruct (decide (i = link)) as [->|Hne].
    + rewrite list_lookup_alter, decide_True, list_lookup_fmap by done.
      destruct (navLinks !! link) as [e|] eqn:He; [|done].
      cbn. intros [= <-]. split.
      * rewrite has_class_add. by rewrite !bool_decide_eq_true_2.
      * exists e. split; [done|]. intros c Hc.
        rewrite has_class_add, Hrem, !bool_decide_eq_false_2 by done.
        by rewrite andb_true_r.
    + rewrite list_lookup_alter_ne by done. rewrite list_lookup_fmap.
      destruct (navLinks !! i) as [e|] eqn:He; [|done].
      intros [= <-]. split.
      * rewrite Hrem, bool_decide_eq_true_2, andb_false_r by done.
        symmetry. apply bool_decide_eq_false_2. congruence.
      * exists e. split; [done|]. intros c Hc.
        by rewrite Hrem, bool_decide_eq_false_2, andb_true_r by done.
  - split; [by rewrite length_fmap|].
    intros i e'. rewrite list_lookup_fmap.
    destruct (navLinks !! i) as [e|] eqn:He; [|done].
    intros [= <-]. split.
    + by rewrite Hrem, bool_decide_eq_true_2, andb_false_r by done.
    + exists e. split; [done|]. intros c Hc.
      by rewrite Hrem, bool_decide_eq_false_2, andb_true_r by done.
Qed.


End NavLinks.

(** ** The options of the animation page *)

Section OptionGroups.

Import AnimationPage.

Lemma catalog_ids_NoDup : NoDup AnimationManager.animations.*1.
Proof.
  apply NoDup_ListNoDup. cbn.
  repeat (constructor; [cbn; intuition discriminate|]). constructor.
Qed.

Lemma shown_renderAnimationGroup type m :
  shown type (renderAnimationGroup type (currentSettings m !! type) m).
Proof.
  unfold shown, renderAnimationGroup.
  destruct (containers m !! type) as [old|] eqn:Hold; [|by rewrite Hold].
  cbn [containers currentSettings]. rewrite lookup_insert_eq.
  intros options Heq. apply (inj Some) in Heq. subst options. split.
  - apply list_eq. intros j. rewrite !list_lookup_fmap.
    by destruct (AnimationManager.animations !! j).
  - intros i o. rewrite list_lookup_fmap.
    destruct (AnimationManager.animations !! i) as [a|]; [|done].
    intros [= <-]. unfold createAnimationOption. cbn [animationId optionClasses].
    by case_bool_decide.
Qed.

Lemma shown_other type type' selectedId m :
  type ≠ type' → shown type m → shown type (renderAnimationGroup type' selectedId m).
Proof.
  intros Hne Hshown. unfold shown, renderAnimationGroup.
  destruct (containers m !! type') as [old|]; [|done].
  cbn [containers currentSettings]. by rewrite lookup_insert_ne.
Qed.

Lemma shown_selectAnimation type type' option m :
  shown type m → shown type (selectAnimation type' option m).
Proof.
  intros Hshown. unfold selectAnimation.
  destruct (containers m !! type') as [options|] eqn:Hopts; [|done].
  destruct (options !! option) as [o|] eqn:Ho; [|done].
  unfold shown, AnimationManager.selectAnimation. cbn [containers currentSettings].
  destruct (decide (type = type')) as [->|Hne].
  - rewrite lookup_insert_eq. intros options' [= <-].
    destruct (Hshown options Hopts) as [Hids _]. split.
    + rewrite <- Hids. apply list_eq. intros j.
      rewrite !list_lookup_fmap.
      destruct (decide (j = option)) as [->|Hj].
      * rewrite list_lookup_alter, decide_True, list_lookup_fmap, Ho by done. done.
      * rewrite list_lookup_alter_ne, list_lookup_fmap by done.
        by destruct (options !! j).
    + intros j o'. rewrite lookup_insert_eq.
      destruct (decide (j = option)) as [->|Hj].
      * rewrite list_lookup_alter, decide_True, list_lookup_fmap, Ho by done.
        intros [= <-]. cbn [animationId optionClasses select deselect].
        rewrite contains_add. by rewrite !bool_decide_eq_true_2.
      * rewrite list_lookup_alter_ne, list_lookup_fmap by done.
        destruct (options !! j) as [oj|] eqn:Hoj; [|done].
        intros [= <-]. cbn [animationId optionClasses deselect].
        rewrite contains_remove.
        assert (animationId oj ≠ animationId o) as Hid.
        { intros Heq. apply Hj.
          apply (NoDup_lookup _ j option (animationId oj) catalog_ids_NoDup).
          - by rewrite <- Hids, list_lookup_fmap, Hoj.
          - by rewrite <- Hids, list_lookup_fmap, Ho, Heq. }
        rewrite (bool_decide_eq_false_2 (Some _ = Some _)) by congruence.
        destruct (ClassList.contains "selected" (optionClasses oj)); reflexivity.
  - by rewrite !lookup_insert_ne.
Qed.

(** X25. On the animation page, from the rendering of the options on and
    through any clicks on options: each container that is on the page
    shows the eight animations of the catalog in its order, and in it the
    option marked [selected] is the one the current settings name for that
    category, and no other. *)
Theorem selected_option_is_the_current_setting
    (cs : gmap string string) (page : gmap string (list AnimationOption))
    (l : list (string * nat)) :
  let m := clicks l (renderAnimationOptions {| currentSettings := cs; containers := page |}) in
  shown "landscape" m ∧ shown "portrait" m.
Proof.
  intros m.
  assert (∀ type, shown type (renderAnimationOptions
                                {| currentSettings := cs; containers := page |}) →
                  shown type m) as Hclicks.
  { unfold m, clicks. generalize (renderAnimationOptions
                                    {| currentSettings := cs; containers := page |}).
    induction l as [|c l IH]; intros m0 type Hshown; [done|].
    cbn [foldl]. apply IH. by apply shown_selectAnimation. }
  split; apply Hclicks; unfold renderAnimationOptions.
  - apply shown_other; [done|].
    apply (shown_renderAnimationGroup "landscape"
             {| currentSettings := cs; containers := page |}).
  - apply shown_renderAnimationGroup.
Qed.

End OptionGroups.
